(** * DX12Renderer: frame lifecycle and GPU/CPU synchronisation

    A shallow embedding of [DX12Renderer/source/main.cpp].  The globals of the
    translation unit become one record; the Direct3D 12, DXGI and Win32
    collaborators become a small explicit model (a fence with a FIFO of
    pending signals, a swap chain, a window) together with an oracle record
    [Env] that supplies everything the program cannot decide itself: the
    HRESULT of every checked call, the back-buffer index DXGI reports, how
    far the GPU has progressed when the CPU looks at the fence.  The API
    calls are appended to a log, so orderings can be stated on the log. *)

From Stdlib Require Import ZArith Lia List Bool String Ascii.
From stdpp Require Import base list.
Import ListNotations.

Local Open Scope Z_scope.

(** ** Machine integers *)

Definition wrap32 (z : Z) : Z := z mod 2 ^ 32.
Definition wrap64 (z : Z) : Z := z mod 2 ^ 64.
Definition UINT64_MAX : Z := 2 ^ 64 - 1.

(** [LONG] is a signed 32-bit integer on Windows. *)
Definition LONG_MIN : Z := - 2 ^ 31.
Definition LONG_MAX : Z := 2 ^ 31 - 1.

(** ** Constants of the program and of the Windows headers it uses *)

(** [constexpr uint8_t g_NumFrames = 2;] *)
Definition g_NumFrames : Z := 2.

Definition DXGI_PRESENT_ALLOW_TEARING : Z := 512.

Definition WS_OVERLAPPED : Z := 0.
Definition WS_CAPTION : Z := 12582912.
Definition WS_SYSMENU : Z := 524288.
Definition WS_THICKFRAME : Z := 262144.
Definition WS_MINIMIZEBOX : Z := 131072.
Definition WS_MAXIMIZEBOX : Z := 65536.
Definition WS_OVERLAPPEDWINDOW : Z :=
  Z.lor WS_OVERLAPPED
    (Z.lor WS_CAPTION
       (Z.lor WS_SYSMENU
          (Z.lor WS_THICKFRAME (Z.lor WS_MINIMIZEBOX WS_MAXIMIZEBOX)))).

Definition SWP_FRAMECHANGED : Z := 32.
Definition SWP_NOACTIVATE : Z := 16.
Definition SW_NORMAL : Z := 1.
Definition SW_MAXIMIZE : Z := 3.
Definition SW_SHOW : Z := 5.

Definition VK_RETURN : Z := 13.
Definition VK_ESCAPE : Z := 27.
Definition VK_F11 : Z := 122.
Definition VK_V : Z := 86.

(** [INFINITE] of [WaitForSingleObject]. *)
Definition INFINITE : Z := 2 ^ 32 - 1.

(** [std::chrono::milliseconds::max().count()]: the largest 64-bit signed
    value. *)
Definition milliseconds_max : Z := 2 ^ 63 - 1.

(** ** Data *)

Record RECT := mkRECT { left : Z; top : Z; right : Z; bottom : Z }.

Inductive ResourceState :=
| D3D12_RESOURCE_STATE_PRESENT
| D3D12_RESOURCE_STATE_RENDER_TARGET.

(** Where [SetWindowPos] inserts the window in the Z order. *)
Inductive InsertAfter := HWND_TOP | HWND_NOTOPMOST.

(** One entry per recorded call into Direct3D 12, DXGI or Win32.  Two
    queries that change nothing are not recorded, [GetAsyncKeyState] and
    [GetClientRect]: their answers come with the message.  A back buffer is
    named by the swap-chain index it was obtained from; [None] is a null
    [ComPtr]. *)
Inductive Event :=
| EvAllocatorReset (slot : Z)
| EvCommandListReset (slot : Z)
| EvResourceBarrier (res : option Z) (before after : ResourceState)
| EvClearRenderTargetView (slot : Z)
| EvCommandListClose
| EvExecuteCommandLists (count : Z)
| EvPresent (syncInterval presentFlags : Z)
| EvQueueSignal (value : Z)
| EvGetCurrentBackBufferIndex (index : Z)
| EvGetCompletedValue (value : Z)
| EvSetEventOnCompletion (value : Z)
| EvWaitForSingleObject (timeout : Z)
| EvBackBufferRelease (slot : Z)
| EvSwapChainGetDesc
| EvResizeBuffers (count width height : Z)
| EvGetBuffer (index : Z)
| EvCreateRenderTargetView (index : Z)
| EvGetWindowRect
| EvSetWindowLong (style : Z)
| EvMonitorFromWindow
| EvGetMonitorInfo
| EvSetWindowPos (after : InsertAfter) (x y cx cy flags : Z)
| EvShowWindow (cmd : Z)
| EvPostQuitMessage
| EvDefWindowProc.

(** The globals of main.cpp that the modelled functions read or write. *)
Record Globals := mkGlobals {
  g_UseWarp : bool;
  g_ClientWidth : Z;
  g_ClientHeight : Z;
  g_IsInitialized : bool;
  g_WindowRect : RECT;
  g_BackBuffers : list (option Z);
  g_CurrentBackBufferIndex : Z;
  g_FenceValue : Z;
  g_FrameFenceValues : list Z;
  g_VSync : bool;
  g_TearingSupported : bool;
  g_Fullscreen : bool
}.

(** The fence as the GPU sees it: the value it has reached and the queue
    signals not yet retired, oldest first.  [event_target] is the value the
    fence event was last armed for by [SetEventOnCompletion]. *)
Record Gpu := mkGpu {
  fence_completed : Z;
  fence_pending : list Z;
  event_target : option Z
}.

Record SwapChain := mkSwapChain { sc_width : Z; sc_height : Z }.

Record Window := mkWindow { win_rect : RECT; win_style : Z; win_show : Z }.

Record World := mkWorld {
  glob : Globals;
  gpu : Gpu;
  swap : SwapChain;
  win : Window;
  log : list Event
}.

(** What the environment answers during one window message. *)
Record Env := mkEnv {
  hr_Close : Z;
  hr_Present : Z;
  hr_Signal : Z;
  hr_SetEventOnCompletion : Z;
  hr_GetDesc : Z;
  hr_ResizeBuffers : Z;
  hr_GetBuffer : Z -> Z;
  (** signals the GPU has retired by the time the fence is read *)
  gpu_progress : nat;
  (** signals the GPU retires at most during a wait with a finite timeout *)
  gpu_progress_in_wait : nat;
  (** answer of [IDXGISwapChain3::GetCurrentBackBufferIndex] *)
  sc_index : Z;
  (** [rcMonitor] of the monitor nearest to the window *)
  monitor : RECT
}.

(** ** Outcomes and the monad of the program *)

Inductive outcome (A : Type) :=
| Ok (a : A) (w : World)
| Thrown (w : World)     (* ThrowIfFailed raised; the process is lost *)
| Blocked (w : World)    (* a wait that never returns *)
| Undefined.             (* an array read or write out of bounds *)
Arguments Ok {A} a w.
Arguments Thrown {A} w.
Arguments Blocked {A} w.
Arguments Undefined {A}.

Definition M (A : Type) : Type := World -> outcome A.

Definition ret {A} (a : A) : M A := fun w => Ok a w.

Definition bind {A B} (m : M A) (k : A -> M B) : M B :=
  fun w =>
    match m w with
    | Ok a w' => k a w'
    | Thrown w' => Thrown w'
    | Blocked w' => Blocked w'
    | Undefined => Undefined
    end.

Notation "x <~ m ;;; k" := (bind m (fun x => k))
  (at level 20, m at level 99, k at level 200, only parsing).
Notation "m ;;; k" := (bind m (fun _ => k))
  (at level 100, k at level 200, right associativity, only parsing).

(** The world an outcome ends in, when there is one. *)
Definition final_world {A} (o : outcome A) : option World :=
  match o with
  | Ok _ w | Thrown w | Blocked w => Some w
  | Undefined => None
  end.

Definition read {A} (f : Globals -> A) : M A := fun w => Ok (f (glob w)) w.

Definition modify (f : Globals -> Globals) : M unit :=
  fun w => Ok tt (mkWorld (f (glob w)) (gpu w) (swap w) (win w) (log w)).

Definition emit (e : Event) : M unit :=
  fun w => Ok tt (mkWorld (glob w) (gpu w) (swap w) (win w) (log w ++ [e])).

Definition get_gpu : M Gpu := fun w => Ok (gpu w) w.

Definition get_win : M Window := fun w => Ok (win w) w.

Definition set_gpu (g : Gpu) : M unit :=
  fun w => Ok tt (mkWorld (glob w) g (swap w) (win w) (log w)).

Definition set_swap (s : SwapChain) : M unit :=
  fun w => Ok tt (mkWorld (glob w) (gpu w) s (win w) (log w)).

Definition set_win (x : Window) : M unit :=
  fun w => Ok tt (mkWorld (glob w) (gpu w) (swap w) x (log w)).

Definition throw {A} : M A := fun w => Thrown w.
Definition block {A} : M A := fun w => Blocked w.
Definition undefined {A} : M A := fun _ => Undefined.

(** Field updates of [Globals]. *)
Definition with_UseWarp (b : bool) (g : Globals) : Globals :=
  mkGlobals b (g_ClientWidth g) (g_ClientHeight g) (g_IsInitialized g)
    (g_WindowRect g) (g_BackBuffers g) (g_CurrentBackBufferIndex g)
    (g_FenceValue g) (g_FrameFenceValues g) (g_VSync g)
    (g_TearingSupported g) (g_Fullscreen g).
Definition with_ClientWidth (v : Z) (g : Globals) : Globals :=
  mkGlobals (g_UseWarp g) v (g_ClientHeight g) (g_IsInitialized g)
    (g_WindowRect g) (g_BackBuffers g) (g_CurrentBackBufferIndex g)
    (g_FenceValue g) (g_FrameFenceValues g) (g_VSync g)
    (g_TearingSupported g) (g_Fullscreen g).
Definition with_ClientHeight (v : Z) (g : Globals) : Globals :=
  mkGlobals (g_UseWarp g) (g_ClientWidth g) v (g_IsInitialized g)
    (g_WindowRect g) (g_BackBuffers g) (g_CurrentBackBufferIndex g)
    (g_FenceValue g) (g_FrameFenceValues g) (g_VSync g)
    (g_TearingSupported g) (g_Fullscreen g).
Definition with_WindowRect (r : RECT) (g : Globals) : Globals :=
  mkGlobals (g_UseWarp g) (g_ClientWidth g) (g_ClientHeight g)
    (g_IsInitialized g) r (g_BackBuffers g) (g_CurrentBackBufferIndex g)
    (g_FenceValue g) (g_FrameFenceValues g) (g_VSync g)
    (g_TearingSupported g) (g_Fullscreen g).
Definition with_BackBuffers (l : list (option Z)) (g : Globals) : Globals :=
  mkGlobals (g_UseWarp g) (g_ClientWidth g) (g_ClientHeight g)
    (g_IsInitialized g) (g_WindowRect g) l (g_CurrentBackBufferIndex g)
    (g_FenceValue g) (g_FrameFenceValues g) (g_VSync g)
    (g_TearingSupported g) (g_Fullscreen g).
Definition with_CurrentBackBufferIndex (i : Z) (g : Globals) : Globals :=
  mkGlobals (g_UseWarp g) (g_ClientWidth g) (g_ClientHeight g)
    (g_IsInitialized g) (g_WindowRect g) (g_BackBuffers g) i
    (g_FenceValue g) (g_FrameFenceValues g) (g_VSync g)
    (g_TearingSupported g) (g_Fullscreen g).
Definition with_FenceValue (v : Z) (g : Globals) : Globals :=
  mkGlobals (g_UseWarp g) (g_ClientWidth g) (g_ClientHeight g)
    (g_IsInitialized g) (g_WindowRect g) (g_BackBuffers g)
    (g_CurrentBackBufferIndex g) v (g_FrameFenceValues g) (g_VSync g)
    (g_TearingSupported g) (g_Fullscreen g).
Definition with_FrameFenceValues (l : list Z) (g : Globals) : Globals :=
  mkGlobals (g_UseWarp g) (g_ClientWidth g) (g_ClientHeight g)
    (g_IsInitialized g) (g_WindowRect g) (g_BackBuffers g)
    (g_CurrentBackBufferIndex g) (g_FenceValue g) l (g_VSync g)
    (g_TearingSupported g) (g_Fullscreen g).
Definition with_VSync (b : bool) (g : Globals) : Globals :=
  mkGlobals (g_UseWarp g) (g_ClientWidth g) (g_ClientHeight g)
    (g_IsInitialized g) (g_WindowRect g) (g_BackBuffers g)
    (g_CurrentBackBufferIndex g) (g_FenceValue g) (g_FrameFenceValues g) b
    (g_TearingSupported g) (g_Fullscreen g).
Definition with_Fullscreen (b : bool) (g : Globals) : Globals :=
  mkGlobals (g_UseWarp g) (g_ClientWidth g) (g_ClientHeight g)
    (g_IsInitialized g) (g_WindowRect g) (g_BackBuffers g)
    (g_CurrentBackBufferIndex g) (g_FenceValue g) (g_FrameFenceValues g)
    (g_VSync g) (g_TearingSupported g) b.

(** ** Arrays of [g_NumFrames] elements

    An index outside the array is undefined behaviour in C++; the model
    stops with [Undefined] instead of inventing a value. *)

Definition array_get {A} (l : list A) (i : Z) : M A :=
  if (0 <=? i) && (i <? g_NumFrames) then
    match l !! Z.to_nat i with
    | Some a => ret a
    | None => undefined
    end
  else undefined.

Definition array_set {A} (l : list A) (i : Z) (a : A) : M (list A) :=
  if (0 <=? i) && (i <? g_NumFrames) && (Z.to_nat i <? length l)%nat then
    ret (<[Z.to_nat i := a]> l)
  else undefined.

(** ** Failure of an API call *)

(** The [FAILED] macro of the Windows headers: an HRESULT is a signed 32-bit
    value and the negative ones are failures. *)
Definition FAILED (hr : Z) : bool := hr <? 0.

(** Modelled from the spec: Helpers.h, which declares [ThrowIfFailed], is not
    among the sources.  Section 7 says every failure reported by the GPU API
    is fatal at the point of occurrence and is not retried; [ThrowIfFailed]
    is taken to raise exactly when [FAILED(hr)]. *)
Definition ThrowIfFailed (hr : Z) : M unit :=
  if FAILED hr then throw else ret tt.

(** ** The collaborators: fence, queue, swap chain, window *)

(** The GPU retires up to [k] pending signals, oldest first; the fence takes
    the value of each signal it retires. *)
Fixpoint gpu_retire (k : nat) (c : Z) (pending : list Z) : Z * list Z :=
  match k, pending with
  | S k', p :: ps => gpu_retire k' p ps
  | _, _ => (c, pending)
  end.

(** The GPU runs until the fence is at least [v]; [None] when no pending
    signal ever brings it there. *)
Fixpoint gpu_run_until (v c : Z) (pending : list Z) : option (Z * list Z) :=
  if v <=? c then Some (c, pending)
  else
    match pending with
    | [] => None
    | p :: ps => gpu_run_until v p ps
    end.

(** The same, giving up after [k] signals (a wait that times out). *)
Fixpoint gpu_run_upto (k : nat) (v c : Z) (pending : list Z) : Z * list Z :=
  if v <=? c then (c, pending)
  else
    match k, pending with
    | S k', p :: ps => gpu_run_upto k' v p ps
    | _, _ => (c, pending)
    end.

Definition gpu_step (k : nat) (g : Gpu) : Gpu :=
  let '(c, ps) := gpu_retire k (fence_completed g) (fence_pending g) in
  mkGpu c ps (event_target g).

(** [ID3D12CommandQueue::Signal]: on success the value joins the queue. *)
Definition queue_Signal (e : Env) (value : Z) : M Z :=
  emit (EvQueueSignal value) ;;;
  if FAILED (hr_Signal e) then ret (hr_Signal e)
  else
    g <~ get_gpu ;;;
    set_gpu (mkGpu (fence_completed g) (fence_pending g ++ [value])
               (event_target g)) ;;;
    ret (hr_Signal e).

(** [ID3D12Fence::GetCompletedValue], read after the GPU has moved on by
    [gpu_progress e] signals. *)
Definition fence_GetCompletedValue (e : Env) : M Z :=
  g <~ get_gpu ;;;
  let g' := gpu_step (gpu_progress e) g in
  set_gpu g' ;;;
  emit (EvGetCompletedValue (fence_completed g')) ;;;
  ret (fence_completed g').

(** [ID3D12Fence::SetEventOnCompletion]: arms the event for [value]. *)
Definition fence_SetEventOnCompletion (e : Env) (value : Z) : M Z :=
  emit (EvSetEventOnCompletion value) ;;;
  if FAILED (hr_SetEventOnCompletion e) then ret (hr_SetEventOnCompletion e)
  else
    g <~ get_gpu ;;;
    set_gpu (mkGpu (fence_completed g) (fence_pending g) (Some value)) ;;;
    ret (hr_SetEventOnCompletion e).

(** [WaitForSingleObject] on the fence event.  With [INFINITE] it returns
    when the fence has reached the armed value and never otherwise; with a
    finite timeout it returns in any case. *)
Definition WaitForSingleObject (e : Env) (timeout : Z) : M unit :=
  emit (EvWaitForSingleObject timeout) ;;;
  g <~ get_gpu ;;;
  match event_target g with
  | None => if timeout =? INFINITE then block else ret tt
  | Some v =>
      if timeout =? INFINITE then
        match gpu_run_until v (fence_completed g) (fence_pending g) with
        | Some (c, ps) => set_gpu (mkGpu c ps None)
        | None => block
        end
      else
        let '(c, ps) :=
          gpu_run_upto (gpu_progress_in_wait e) v
            (fence_completed g) (fence_pending g) in
        set_gpu (mkGpu c ps (if v <=? c then None else Some v))
  end.

Definition commandList_Close (e : Env) : M Z :=
  emit EvCommandListClose ;;; ret (hr_Close e).

Definition swapChain_Present (e : Env) (syncInterval presentFlags : Z) : M Z :=
  emit (EvPresent syncInterval presentFlags) ;;; ret (hr_Present e).

Definition swapChain_GetCurrentBackBufferIndex (e : Env) : M Z :=
  emit (EvGetCurrentBackBufferIndex (sc_index e)) ;;; ret (sc_index e).

Definition swapChain_GetDesc (e : Env) : M Z :=
  emit EvSwapChainGetDesc ;;; ret (hr_GetDesc e).

Definition swapChain_ResizeBuffers (e : Env) (count width height : Z) : M Z :=
  emit (EvResizeBuffers count width height) ;;;
  if FAILED (hr_ResizeBuffers e) then ret (hr_ResizeBuffers e)
  else set_swap (mkSwapChain width height) ;;; ret (hr_ResizeBuffers e).

Definition swapChain_GetBuffer (e : Env) (i : Z) : M Z :=
  emit (EvGetBuffer i) ;;; ret (hr_GetBuffer e i).

Definition GetWindowRect : M RECT :=
  emit EvGetWindowRect ;;; x <~ get_win ;;; ret (win_rect x).

Definition SetWindowLongW (style : Z) : M unit :=
  emit (EvSetWindowLong style) ;;;
  x <~ get_win ;;;
  set_win (mkWindow (win_rect x) style (win_show x)).

(** [SetWindowPos], [ShowWindow] and [DefWindowProcW] are the call alone:
    the messages Windows sends to the window procedure while such a call
    runs, [WM_SIZE] among them, are not dispatched inside it; they are
    steps of their own in a run. *)
Definition SetWindowPos (after : InsertAfter) (x y cx cy flags : Z) : M unit :=
  emit (EvSetWindowPos after x y cx cy flags) ;;;
  old <~ get_win ;;;
  set_win (mkWindow (mkRECT x y (x + cx) (y + cy)) (win_style old)
             (win_show old)).

Definition ShowWindow (cmd : Z) : M unit :=
  emit (EvShowWindow cmd) ;;;
  x <~ get_win ;;;
  set_win (mkWindow (win_rect x) (win_style x) cmd).

(** A [for (int i = 0; i < n; ++i)] whose body leaves [i] alone. *)
Definition indices (n : Z) : list Z := map Z.of_nat (seq 0 (Z.to_nat n)).

Fixpoint for_each (l : list Z) (body : Z -> M unit) : M unit :=
  match l with
  | [] => ret tt
  | i :: l' => body i ;;; for_each l' body
  end.

(** The command allocators are created once at start-up, one per frame, and
    never replaced; allocator [i] is named [i]. *)
Definition g_CommandAllocators : list Z := indices g_NumFrames.

(** ** main.cpp *)

(** [uint64_t Signal(commandQueue, fence, uint64_t& fenceValue)] *)
Definition Signal (e : Env) : M Z :=
  fv <~ read g_FenceValue ;;;
  let fenceValueForSignal := wrap64 (fv + 1) in
  modify (with_FenceValue fenceValueForSignal) ;;;
  hr <~ queue_Signal e fenceValueForSignal ;;;
  ThrowIfFailed hr ;;;
  ret fenceValueForSignal.

(** [void WaitForFenceValue(fence, fenceValue, fenceEvent, duration)] *)
Definition WaitForFenceValue (e : Env) (fenceValue : Z) (duration : Z)
  : M unit :=
  c <~ fence_GetCompletedValue e ;;;
  if c <? fenceValue then
    hr <~ fence_SetEventOnCompletion e fenceValue ;;;
    ThrowIfFailed hr ;;;
    WaitForSingleObject e (wrap32 duration)
  else ret tt.

(** [void Flush(commandQueue, fence, uint64_t& fenceValue, fenceEvent)] *)
Definition Flush (e : Env) : M unit :=
  fenceValueForSignal <~ Signal e ;;;
  WaitForFenceValue e fenceValueForSignal milliseconds_max.

(** [void UpdateRenderTargetViews(device, swapChain, descriptorHeap)] *)
Definition UpdateRenderTargetViews (e : Env) : M unit :=
  for_each (indices g_NumFrames) (fun i =>
    hr <~ swapChain_GetBuffer e i ;;;
    ThrowIfFailed hr ;;;
    emit (EvCreateRenderTargetView i) ;;;
    bbs <~ read g_BackBuffers ;;;
    bbs' <~ array_set bbs i (Some i) ;;;
    modify (with_BackBuffers bbs')).

(** [void Render()] *)
Definition Render (e : Env) : M unit :=
  idx <~ read g_CurrentBackBufferIndex ;;;
  commandAllocator <~ array_get g_CommandAllocators idx ;;;
  bbs <~ read g_BackBuffers ;;;
  backBuffer <~ array_get bbs idx ;;;
  emit (EvAllocatorReset commandAllocator) ;;;
  emit (EvCommandListReset commandAllocator) ;;;
  emit (EvResourceBarrier backBuffer
          D3D12_RESOURCE_STATE_PRESENT D3D12_RESOURCE_STATE_RENDER_TARGET) ;;;
  emit (EvClearRenderTargetView idx) ;;;
  emit (EvResourceBarrier backBuffer
          D3D12_RESOURCE_STATE_RENDER_TARGET D3D12_RESOURCE_STATE_PRESENT) ;;;
  hr <~ commandList_Close e ;;;
  ThrowIfFailed hr ;;;
  emit (EvExecuteCommandLists 1) ;;;
  vsync <~ read g_VSync ;;;
  tearing <~ read g_TearingSupported ;;;
  let syncInterval := if vsync then 1 else 0 in
  let presentFlags :=
    if tearing && negb vsync then DXGI_PRESENT_ALLOW_TEARING else 0 in
  hr <~ swapChain_Present e syncInterval presentFlags ;;;
  ThrowIfFailed hr ;;;
  v <~ Signal e ;;;
  cur <~ read g_CurrentBackBufferIndex ;;;
  ffv <~ read g_FrameFenceValues ;;;
  ffv' <~ array_set ffv cur v ;;;
  modify (with_FrameFenceValues ffv') ;;;
  i <~ swapChain_GetCurrentBackBufferIndex e ;;;
  modify (with_CurrentBackBufferIndex i) ;;;
  ffv <~ read g_FrameFenceValues ;;;
  watermark <~ array_get ffv i ;;;
  WaitForFenceValue e watermark milliseconds_max.

(** [void Resize(uint32_t width, uint32_t height)] *)
Definition Resize (e : Env) (width height : Z) : M unit :=
  cw <~ read g_ClientWidth ;;;
  ch <~ read g_ClientHeight ;;;
  if negb (cw =? width) || negb (ch =? height) then
    modify (with_ClientWidth (Z.max 1 width)) ;;;
    modify (with_ClientHeight (Z.max 1 height)) ;;;
    Flush e ;;;
    for_each (indices g_NumFrames) (fun i =>
      bbs <~ read g_BackBuffers ;;;
      old <~ array_get bbs i ;;;
      (match old with
       | Some _ => emit (EvBackBufferRelease i)
       | None => ret tt
       end) ;;;
      bbs' <~ array_set bbs i None ;;;
      modify (with_BackBuffers bbs') ;;;
      cur <~ read g_CurrentBackBufferIndex ;;;
      ffv <~ read g_FrameFenceValues ;;;
      v <~ array_get ffv cur ;;;
      ffv' <~ array_set ffv i v ;;;
      modify (with_FrameFenceValues ffv')) ;;;
    hr <~ swapChain_GetDesc e ;;;
    ThrowIfFailed hr ;;;
    cw <~ read g_ClientWidth ;;;
    ch <~ read g_ClientHeight ;;;
    hr <~ swapChain_ResizeBuffers e g_NumFrames cw ch ;;;
    ThrowIfFailed hr ;;;
    i <~ swapChain_GetCurrentBackBufferIndex e ;;;
    modify (with_CurrentBackBufferIndex i) ;;;
    UpdateRenderTargetViews e
  else ret tt.

(** [void SetFullscreen(bool fullscreen)] *)
Definition SetFullscreen (e : Env) (fullscreen : bool) : M unit :=
  cur <~ read g_Fullscreen ;;;
  if negb (Bool.eqb cur fullscreen) then
    modify (with_Fullscreen fullscreen) ;;;
    fs <~ read g_Fullscreen ;;;
    if fs then
      r <~ GetWindowRect ;;;
      modify (with_WindowRect r) ;;;
      let windowStyle :=
        Z.land WS_OVERLAPPEDWINDOW
          (Z.lnot (Z.lor WS_CAPTION
                     (Z.lor WS_SYSMENU
                        (Z.lor WS_THICKFRAME
                           (Z.lor WS_MINIMIZEBOX WS_MAXIMIZEBOX))))) in
      SetWindowLongW windowStyle ;;;
      emit EvMonitorFromWindow ;;;
      emit EvGetMonitorInfo ;;;
      let rcMonitor := monitor e in
      SetWindowPos HWND_TOP (left rcMonitor) (top rcMonitor)
        (right rcMonitor - left rcMonitor)
        (bottom rcMonitor - top rcMonitor)
        (Z.lor SWP_FRAMECHANGED SWP_NOACTIVATE) ;;;
      ShowWindow SW_MAXIMIZE
    else
      SetWindowLongW WS_OVERLAPPEDWINDOW ;;;
      r <~ read g_WindowRect ;;;
      SetWindowPos HWND_NOTOPMOST (left r) (top r)
        (right r - left r) (bottom r - top r)
        (Z.lor SWP_FRAMECHANGED SWP_NOACTIVATE) ;;;
      ShowWindow SW_NORMAL
  else ret tt.

(** The messages [WndProc] distinguishes.  [alt] is what
    [GetAsyncKeyState(VK_MENU)] reports and [clientRect] what
    [GetClientRect] fills in. *)
Inductive Message :=
| WM_PAINT
| WM_SYSKEYDOWN (wParam : Z) (alt : bool)
| WM_KEYDOWN (wParam : Z) (alt : bool)
| WM_SYSCHAR
| WM_SIZE (clientRect : RECT)
| WM_DESTROY
| WM_other.

Definition on_key (e : Env) (wParam : Z) (alt : bool) : M unit :=
  if wParam =? VK_V then
    v <~ read g_VSync ;;; modify (with_VSync (negb v))
  else if wParam =? VK_ESCAPE then emit EvPostQuitMessage
  else if wParam =? VK_RETURN then
    if alt then
      fs <~ read g_Fullscreen ;;; SetFullscreen e (negb fs)
    else ret tt
  else if wParam =? VK_F11 then
    fs <~ read g_Fullscreen ;;; SetFullscreen e (negb fs)
  else ret tt.

(** [LRESULT CALLBACK WndProc(hwnd, message, wParam, lParam)].  [Update]
    only keeps a frame counter for the debug output and is left out. *)
Definition WndProc (e : Env) (message : Message) : M unit :=
  init <~ read g_IsInitialized ;;;
  if init then
    match message with
    | WM_PAINT => Render e
    | WM_SYSKEYDOWN wParam alt | WM_KEYDOWN wParam alt => on_key e wParam alt
    | WM_SYSCHAR => ret tt
    | WM_SIZE clientRect =>
        let width := right clientRect - left clientRect in
        let height := bottom clientRect - top clientRect in
        Resize e (wrap32 width) (wrap32 height)
    | WM_DESTROY => emit EvPostQuitMessage
    | WM_other => emit EvDefWindowProc
    end
  else emit EvDefWindowProc.

(** The world when [wWinMain] enters its message loop: everything created,
    the fence at 0, no frame submitted yet. *)
Definition startup (width height : Z) (warp tearing : bool) (rect : RECT)
    (index : Z) : World :=
  mkWorld
    (mkGlobals warp width height true rect [Some 0; Some 1] index 0 [0; 0]
       true tearing false)
    (mkGpu 0 [] None)
    (mkSwapChain width height)
    (mkWindow rect WS_OVERLAPPEDWINDOW SW_SHOW)
    [].

(** What happens between start-up and shutdown: a message is dispatched, or
    the GPU gets ahead on its own. *)
Inductive Step :=
| Dispatch (e : Env) (message : Message)
| GpuRetires (k : nat).

Definition step (s : Step) : M unit :=
  match s with
  | Dispatch e message => WndProc e message
  | GpuRetires k => g <~ get_gpu ;;; set_gpu (gpu_step k g)
  end.

Fixpoint run (script : list Step) : M unit :=
  match script with
  | [] => ret tt
  | s :: script' => step s ;;; run script'
  end.

(** ** Consecutive frames

    A harness for the scenario of section 8: [Render] is called once per
    environment of the list, nothing happens in between, and the value
    found afterwards in the watermark of the slot that was current is
    collected for every cycle. *)
Fixpoint render_cycles (es : list Env) : M (list Z) :=
  match es with
  | [] => ret []
  | e :: es' =>
      idx <~ read g_CurrentBackBufferIndex ;;;
      Render e ;;;
      ffv <~ read g_FrameFenceValues ;;;
      v <~ array_get ffv idx ;;;
      vs <~ render_cycles es' ;;;
      ret (v :: vs)
  end.

(** ** The command line *)

(** The C library's [wcstol] in base 10 with a null [endptr]: white space is
    skipped, an optional sign and the longest run of decimal digits are
    read; without any digit the result is 0, and a value outside [LONG] is
    clamped to [LONG_MIN] or [LONG_MAX]. *)
Definition is_space (c : ascii) : bool :=
  let n := Z.of_N (N_of_ascii c) in
  (n =? 32) || ((9 <=? n) && (n <=? 13)).

Definition digit_of (c : ascii) : option Z :=
  let n := Z.of_N (N_of_ascii c) in
  if (48 <=? n) && (n <=? 57) then Some (n - 48) else None.

Fixpoint skip_spaces (s : string) : string :=
  match s with
  | String c s' => if is_space c then skip_spaces s' else s
  | EmptyString => s
  end.

Fixpoint digits_value (s : string) (acc : Z) : Z :=
  match s with
  | String c s' =>
      match digit_of c with
      | Some d => digits_value s' (10 * acc + d)
      | None => acc
      end
  | EmptyString => acc
  end.

Definition wcstol (s : string) : Z :=
  let s1 := skip_spaces s in
  let '(negative, s2) :=
    match s1 with
    | String "-"%char r => (true, r)
    | String "+"%char r => (false, r)
    | _ => (false, s1)
    end in
  let v := digits_value s2 0 in
  Z.max LONG_MIN (Z.min LONG_MAX (if negative then - v else v)).

Definition is_width_flag (a : string) : bool :=
  String.eqb a "-w" || String.eqb a "--width".
Definition is_height_flag (a : string) : bool :=
  String.eqb a "-h" || String.eqb a "--height".
Definition is_warp_flag (a : string) : bool :=
  String.eqb a "-warp" || String.eqb a "--warp".

(** The globals as their initialisers leave them, before [wWinMain] runs. *)
Definition initial_globals : Globals :=
  mkGlobals false 1280 720 false (mkRECT 0 0 0 0) [None; None] 0 0 [0; 0]
    true false false.

Inductive parse_result :=
| Parsed (g : Globals)
| ParseUndefined      (* [argv] read at or beyond [argc] *)
| ParseOutOfFuel.

(** The body of the [for] loop at index [i].  It yields the index it leaves
    behind (before the loop's own [++i]) and the globals; [None] when it
    reads [argv] outside the array, which is undefined. *)
Definition parse_body (argv : list string) (i : nat) (g : Globals)
  : option (nat * Globals) :=
  a ← argv !! i;
  '(i, g) ← (if is_width_flag a then
               v ← argv !! S i;
               Some (S i, with_ClientWidth (wrap32 (wcstol v)) g)
             else Some (i, g));
  a ← argv !! i;
  '(i, g) ← (if is_height_flag a then
               v ← argv !! S i;
               Some (S i, with_ClientHeight (wrap32 (wcstol v)) g)
             else Some (i, g));
  a ← argv !! i;
  Some (i, if is_warp_flag a then with_UseWarp true g else g).

Fixpoint parse_loop (fuel : nat) (argv : list string) (i : nat) (g : Globals)
  : parse_result :=
  if (i <? length argv)%nat then
    match fuel with
    | O => ParseOutOfFuel
    | S fuel' =>
        match parse_body argv i g with
        | Some (i', g') => parse_loop fuel' argv (S i') g'
        | None => ParseUndefined
        end
    end
  else Parsed g.

(** [void ParseCommandLineArguments()], on the array [CommandLineToArgvW]
    returns.  Every iteration advances [i], so [argc] iterations are
    enough. *)
Definition ParseCommandLineArguments (argv : list string) (g : Globals)
  : parse_result :=
  parse_loop (length argv) argv 0 g.

(** ** The adapter *)

Definition DXGI_ADAPTER_FLAG_SOFTWARE : Z := 2.

(** What [GetDesc1] reports for an enumerated adapter, and whether
    [D3D12CreateDevice] would succeed on it. *)
Record DXGI_ADAPTER_DESC1 := mkAdapterDesc {
  Flags : Z;
  DedicatedVideoMemory : Z;
  device_creatable : bool
}.

Inductive AdapterChoice :=
| WarpAdapter                       (* what [EnumWarpAdapter] yields *)
| EnumeratedAdapter (index : nat)   (* what [EnumAdapters1(index)] yields *)
| NullAdapter.                      (* [dxgiAdapter4] never assigned *)

(** The [for] loop of [GetAdapter] from index [i] on. *)
Fixpoint GetAdapter_loop (i : nat) (adapters : list DXGI_ADAPTER_DESC1)
    (maxDedicatedVideoMemory : Z) (dxgiAdapter4 : AdapterChoice)
  : AdapterChoice :=
  match adapters with
  | [] => dxgiAdapter4
  | desc :: rest =>
      if (Z.land (Flags desc) DXGI_ADAPTER_FLAG_SOFTWARE =? 0)
         && device_creatable desc
         && (maxDedicatedVideoMemory <? DedicatedVideoMemory desc)
      then GetAdapter_loop (S i) rest (DedicatedVideoMemory desc)
             (EnumeratedAdapter i)
      else GetAdapter_loop (S i) rest maxDedicatedVideoMemory dxgiAdapter4
  end.

(** [ComPtr<IDXGIAdapter4> GetAdapter(bool useWarp)], when the factory and
    the interface queries succeed; [adapters] is what [EnumAdapters1]
    enumerates. *)
Definition GetAdapter (useWarp : bool) (adapters : list DXGI_ADAPTER_DESC1)
  : AdapterChoice :=
  if useWarp then WarpAdapter else GetAdapter_loop 0 adapters 0 NullAdapter.

(** ** Tearing support and the swap chain's creation flags *)

(** The [SUCCEEDED] macro. *)
Definition SUCCEEDED (hr : Z) : bool := 0 <=? hr.

(** The [BOOL] values of the Windows headers. *)
Definition TRUE : Z := 1.
Definition FALSE : Z := 0.

Definition DXGI_SWAP_CHAIN_FLAG_ALLOW_TEARING : Z := 2048.

(** What the DXGI factory answers to [CheckTearingSupport]: the HRESULT of
    the three calls and the [BOOL] that [CheckFeatureSupport] stores. *)
Record FactoryEnv := mkFactoryEnv {
  hr_CreateDXGIFactory1 : Z;
  hr_As_Factory5 : Z;
  hr_CheckFeatureSupport : Z;
  feature_allowTearing : Z
}.

(** [bool CheckTearingSupport()] *)
Definition CheckTearingSupport (f : FactoryEnv) : bool :=
  let allowTearing := FALSE in
  let allowTearing :=
    if SUCCEEDED (hr_CreateDXGIFactory1 f) then
      if SUCCEEDED (hr_As_Factory5 f) then
        if FAILED (hr_CheckFeatureSupport f) then FALSE
        else feature_allowTearing f
      else allowTearing
    else allowTearing in
  allowTearing =? TRUE.

(** [swapChainDesc.Flags] as [CreateSwapChain] fills it in, the factory
    answering its call of [CheckTearingSupport] as it answered the call of
    [wWinMain]. *)
Definition swapChainDesc_Flags (f : FactoryEnv) : Z :=
  if CheckTearingSupport f then DXGI_SWAP_CHAIN_FLAG_ALLOW_TEARING else 0.

(** ** The window *)

(** [int] and [LONG] are 32-bit signed; an [int] operation whose result
    does not fit is undefined. *)
Definition in_int (z : Z) : bool := (LONG_MIN <=? z) && (z <=? LONG_MAX).

Definition int_sub (a b : Z) : option Z :=
  if in_int (a - b) then Some (a - b) else None.

(** [static_cast<LONG>] of a [uint32_t]. *)
Definition to_LONG (z : Z) : Z := (z + 2 ^ 31) mod 2 ^ 32 - 2 ^ 31.

(** What Windows answers to [CreateWindow]: the size of the primary screen
    and the window rectangle [AdjustWindowRect] makes of a client
    rectangle for a window style. *)
Record ScreenEnv := mkScreenEnv {
  SM_CXSCREEN : Z;
  SM_CYSCREEN : Z;
  AdjustWindowRect : RECT -> Z -> RECT
}.

(** [HWND CreateWindow(windowClassName, hInst, windowTitle, width, height)]:
    the position and the size it hands to [CreateWindowExW], in the order
    [windowX], [windowY], [windowWidth], [windowHeight]. *)
Definition CreateWindow (s : ScreenEnv) (width height : Z)
  : option (Z * Z * Z * Z) :=
  let screenWidth := SM_CXSCREEN s in
  let screenHeight := SM_CYSCREEN s in
  let windowRect :=
    AdjustWindowRect s (mkRECT 0 0 (to_LONG width) (to_LONG height))
      WS_OVERLAPPEDWINDOW in
  windowWidth ← int_sub (right windowRect) (left windowRect);
  windowHeight ← int_sub (bottom windowRect) (top windowRect);
  dx ← int_sub screenWidth windowWidth;
  dy ← int_sub screenHeight windowHeight;
  let windowX := Z.max 0 (dx ÷ 2) in
  let windowY := Z.max 0 (dy ÷ 2) in
  Some (windowX, windowY, windowWidth, windowHeight).

(** ** Leaving the program *)

(** [wWinMain] from its message loop on: the messages dispatched until
    [WM_QUIT] is retrieved, then the flush that precedes the closing of the
    fence event. *)
Definition wWinMain_loop (script : list Step) (e : Env) : M unit :=
  run script ;;; Flush e.

(** * Vocabulary of the specification *)

(** ** A frame rule for the monad

    [stable I P m]: started in a world whose globals satisfy [I], whatever
    way [m] ends (normally, by an exception or blocked), the globals still
    satisfy [I], the log has only grown, and every event added satisfies
    [P]. *)
Definition stable {A} (I : Globals -> Prop) (P : Event -> Prop) (m : M A)
  : Prop :=
  forall w w', I (glob w) -> final_world (m w) = Some w' ->
    I (glob w') /\ exists evs, log w' = log w ++ evs /\ Forall P evs.

(** ** The fence as an ascending chain

    [ascending_to c ps top]: the fence is at [c], the pending signals [ps]
    carry strictly larger and larger values, and the last of them (or [c]
    when none is pending) is [top]. *)
Fixpoint ascending_to (c : Z) (ps : list Z) (top : Z) : Prop :=
  match ps with
  | [] => c = top
  | p :: ps' => c < p /\ ascending_to p ps' top
  end.

Definition gpu_ok (g : Gpu) (top : Z) : Prop :=
  ascending_to (fence_completed g) (fence_pending g) top.

(** The world between two window messages: the index names a frame, both
    arrays are whole, no watermark is ahead of the counter, the counter has
    room for one more signal, and the fence and its pending signals lead up
    to the counter. *)
Record world_ok (w : World) : Prop := mk_world_ok {
  ok_index :
    0 <= g_CurrentBackBufferIndex (glob w) < g_NumFrames;
  ok_buffers : g_BackBuffers (glob w) = [Some 0; Some 1];
  ok_length : length (g_FrameFenceValues (glob w)) = 2%nat;
  ok_watermarks :
    Forall (fun v => v <= g_FenceValue (glob w)) (g_FrameFenceValues (glob w));
  ok_counter : 0 <= g_FenceValue (glob w) < UINT64_MAX;
  ok_gpu : gpu_ok (gpu w) (g_FenceValue (glob w))
}.

(** Every checked call of the message succeeds. *)
Record calls_succeed (e : Env) : Prop := mk_calls_succeed {
  ok_Close : 0 <= hr_Close e;
  ok_Present : 0 <= hr_Present e;
  ok_Signal : 0 <= hr_Signal e;
  ok_SetEventOnCompletion : 0 <= hr_SetEventOnCompletion e;
  ok_GetDesc : 0 <= hr_GetDesc e;
  ok_ResizeBuffers : 0 <= hr_ResizeBuffers e;
  ok_GetBuffer : forall i, 0 <= hr_GetBuffer e i
}.

(** DXGI reports an index inside the ring. *)
Definition index_ok (e : Env) : Prop := 0 <= sc_index e < g_NumFrames.

Definition env_ok (e : Env) : Prop := calls_succeed e /\ index_ok e.

(** The precondition of [ID3D12CommandAllocator::Reset] for the frame the
    next [Render] will use: the watermark recorded for the current slot has
    been reached by the fence. *)
Definition reset_safe (w : World) : Prop :=
  exists v,
    g_FrameFenceValues (glob w)
      !! Z.to_nat (g_CurrentBackBufferIndex (glob w)) = Some v
    /\ v <= fence_completed (gpu w).

(** A call either returns in a world satisfying [Q] or ends in [Thrown],
    in which case [F] holds. *)
Definition outcome_cases {A} (o : outcome A) (Q : A -> World -> Prop)
    (F : Prop) : Prop :=
  (exists a w', o = Ok a w' /\ Q a w') \/ (F /\ exists w', o = Thrown w').

(** What a wait appends to the log: the fence is read; if it is behind, the
    event is armed and waited for without a timeout. *)
Definition wait_events (c v : Z) : list Event :=
  if c <? v then
    [EvGetCompletedValue c; EvSetEventOnCompletion v;
     EvWaitForSingleObject INFINITE]
  else [EvGetCompletedValue c].

(** The calls one [Render] makes before it waits. *)
Definition render_events (idx syncInterval presentFlags v next : Z)
  : list Event :=
  [EvAllocatorReset idx; EvCommandListReset idx;
   EvResourceBarrier (Some idx)
     D3D12_RESOURCE_STATE_PRESENT D3D12_RESOURCE_STATE_RENDER_TARGET;
   EvClearRenderTargetView idx;
   EvResourceBarrier (Some idx)
     D3D12_RESOURCE_STATE_RENDER_TARGET D3D12_RESOURCE_STATE_PRESENT;
   EvCommandListClose; EvExecuteCommandLists 1;
   EvPresent syncInterval presentFlags; EvQueueSignal v;
   EvGetCurrentBackBufferIndex next].

(** The calls of a [Resize] that changes the size, [c] being the fence value
    its flush reads. *)
Definition resize_events (v c width height next : Z) : list Event :=
  EvQueueSignal v :: wait_events c v
  ++ [EvBackBufferRelease 0; EvBackBufferRelease 1; EvSwapChainGetDesc;
      EvResizeBuffers g_NumFrames width height;
      EvGetCurrentBackBufferIndex next;
      EvGetBuffer 0; EvCreateRenderTargetView 0;
      EvGetBuffer 1; EvCreateRenderTargetView 1].

(** What the synchronisation invariants depend on. *)
Definition sync_state (w : World)
  : Z * list (option Z) * Z * list Z * Gpu :=
  (g_CurrentBackBufferIndex (glob w), g_BackBuffers (glob w),
   g_FenceValue (glob w), g_FrameFenceValues (glob w), gpu w).

Definition step_index_ok (s : Step) : Prop :=
  match s with
  | Dispatch e _ => index_ok e
  | GpuRetires _ => True
  end.

Definition step_succeeds (s : Step) : Prop :=
  match s with
  | Dispatch e _ => calls_succeed e
  | GpuRetires _ => True
  end.

(** What [Render] passes to [IDXGISwapChain::Present] for given settings. *)
Definition present_args (vsync tearing : bool) (ev : Event) : Prop :=
  match ev with
  | EvPresent syncInterval presentFlags =>
      syncInterval = (if vsync then 1 else 0)
      /\ presentFlags =
           (if tearing && negb vsync then DXGI_PRESENT_ALLOW_TEARING else 0)
  | _ => True
  end.

(** Flags that do not occur on a command line. *)
Definition no_width_flag (argv : list string) : Prop :=
  Forall (fun a => is_width_flag a = false) argv.
Definition no_height_flag (argv : list string) : Prop :=
  Forall (fun a => is_height_flag a = false) argv.

Definition is_flag (a : string) : bool :=
  is_width_flag a || is_height_flag a || is_warp_flag a.

(** An adapter [GetAdapter] accepts in its enumeration: not a software
    adapter, and able to host a device. *)
Definition hardware_adapter (desc : DXGI_ADAPTER_DESC1) : Prop :=
  Z.land (Flags desc) DXGI_ADAPTER_FLAG_SOFTWARE = 0
  /\ device_creatable desc = true.

(** ** Sample inputs *)

(** An environment in which every call succeeds, DXGI answers [next] and the
    GPU has retired [progress] more signals when the fence is read. *)
Definition env_good (next : Z) (progress : nat) : Env :=
  mkEnv 0 0 0 0 0 0 (fun _ => 0) progress 0%nat next (mkRECT 0 0 1920 1080).

(** The world at the first message: 1280 by 720, hardware adapter, no
    tearing support, DXGI starting at buffer 0. *)
Definition world_start : World :=
  startup 1280 720 false false (mkRECT 100 100 1380 820) 0.

(** Two frames, the GPU catching up, a resize to 800 by 600, a frame. *)
Definition script_frames : list Step :=
  [Dispatch (env_good 1 0) WM_PAINT;
   Dispatch (env_good 0 0) WM_PAINT;
   GpuRetires 1;
   Dispatch (env_good 1 1) (WM_SIZE (mkRECT 0 0 800 600));
   Dispatch (env_good 0 0) WM_PAINT].

(** The V key, then a frame. *)
Definition script_vsync_off : list Step :=
  [Dispatch (env_good 0 0) (WM_KEYDOWN VK_V false);
   Dispatch (env_good 1 0) WM_PAINT].

(** The world after the first frame of [world_start], DXGI moving on to
    buffer 1. *)
Definition world_after_first_frame : World :=
  Eval vm_compute in
    match Render (env_good 1 0) world_start with
    | Ok _ w => w
    | _ => world_start
    end.

(** The world after [script_vsync_off]. *)
Definition world_after_vsync_off : World :=
  Eval vm_compute in
    match run script_vsync_off world_start with
    | Ok _ w => w
    | _ => world_start
    end.

(** ** More vocabulary *)

(** The values handed to [ID3D12CommandQueue::Signal], in the order of the
    calls. *)
Definition signalled (evs : list Event) : list Z :=
  omap (fun ev => match ev with EvQueueSignal v => Some v | _ => None end)
    evs.

(** The numbers 1, 2, ..., [n]. *)
Definition upto (n : Z) : list Z := map Z.of_nat (seq 1 (Z.to_nat n)).

(** A present either asks for nothing special or asks for tearing, and
    then without waiting for the vertical blank and on a swap chain that
    was created for tearing. *)
Definition tearing_present (f : FactoryEnv) (ev : Event) : Prop :=
  match ev with
  | EvPresent syncInterval presentFlags =>
      presentFlags = 0
      \/ (presentFlags = DXGI_PRESENT_ALLOW_TEARING
          /\ syncInterval = 0
          /\ swapChainDesc_Flags f = DXGI_SWAP_CHAIN_FLAG_ALLOW_TEARING
          /\ 0 <= hr_CreateDXGIFactory1 f
          /\ 0 <= hr_As_Factory5 f
          /\ 0 <= hr_CheckFeatureSupport f
          /\ feature_allowTearing f = TRUE)
  | _ => True
  end.

(** An event that is no queue signal. *)
Definition not_signal (ev : Event) : Prop :=
  match ev with
  | EvQueueSignal _ => False
  | _ => True
  end.

(** What stays as it is when a message only concerns the window or the
    settings: the synchronisation state, the swap chain and the client
    size. *)
Definition render_state (w : World)
  : (Z * list (option Z) * Z * list Z * Gpu) * SwapChain * Z * Z :=
  (sync_state w, swap w, g_ClientWidth (glob w), g_ClientHeight (glob w)).

(** The style bits [SetFullscreen] takes away for a borderless window. *)
Definition frame_bits : Z :=
  Z.lor WS_CAPTION
    (Z.lor WS_SYSMENU
       (Z.lor WS_THICKFRAME (Z.lor WS_MINIMIZEBOX WS_MAXIMIZEBOX))).

(** A screen of 1920 by 1080 on which a window frame adds 8 pixels on the
    left, the right and the bottom and 31 at the top. *)
Definition screen_sample : ScreenEnv :=
  mkScreenEnv 1920 1080
    (fun r _ => mkRECT (left r - 8) (top r - 31) (right r + 8) (bottom r + 8)).

(** A factory that supports tearing. *)
Definition factory_tearing : FactoryEnv := mkFactoryEnv 0 0 0 1.

(** The world after [script_vsync_off] on a display that supports
    tearing. *)
Definition world_after_tearing : World :=
  Eval vm_compute in
    match
      run script_vsync_off
        (startup 1280 720 false (CheckTearingSupport factory_tearing)
           (mkRECT 100 100 1380 820) 0)
    with
    | Ok _ w => w
    | _ => world_start
    end.

(** ** The command line, as a user writes it *)

(** Every dimension flag has an argument after it, and that argument is not
    itself a flag. *)
Fixpoint values_follow (argv : list string) : bool :=
  match argv with
  | [] => true
  | a :: rest =>
      (if is_width_flag a || is_height_flag a then
         match rest with
         | v :: _ => negb (is_flag v)
         | [] => false
         end
       else true)
      && values_follow rest
  end.

(** The argument after the last occurrence of a flag. *)
Fixpoint last_value (is_it : string -> bool) (argv : list string)
  : option string :=
  match argv with
  | [] => None
  | a :: rest =>
      match last_value is_it rest with
      | Some v => Some v
      | None => if is_it a then head rest else None
      end
  end.

(** The number a command line gives for a dimension: what [wcstol] reads
    from the argument after the last occurrence of its flag, or the default
    when the flag does not occur. *)
Definition dimension_read (is_it : string -> bool) (argv : list string)
    (default : Z) : Z :=
  match last_value is_it argv with
  | Some v => wcstol v
  | None => default
  end.

(** The messages [WndProc] handles without calling [SetFullscreen] or
    [DefWindowProcW]: a key other than F11 and Alt+Enter, [WM_SYSCHAR] and
    [WM_DESTROY]. *)
Definition handled_in_place (message : Message) : Prop :=
  match message with
  | WM_SYSKEYDOWN wParam alt | WM_KEYDOWN wParam alt =>
      wParam <> VK_F11 /\ (wParam = VK_RETURN -> alt = false)
  | WM_SYSCHAR | WM_DESTROY => True
  | WM_PAINT | WM_SIZE _ | WM_other => False
  end.

(** * Reasoning principles *)

Section Stable.
Context (I : Globals -> Prop) (P : Event -> Prop).

Lemma stable_ret {A} (a : A) : stable I P (ret a).
Proof.
  intros w w' HI [= <-]. split; [exact HI|].
  exists []. rewrite app_nil_r. auto.
Qed.

Lemma stable_bind {A B} (m : M A) (k : A -> M B) :
  stable I P m -> (forall a, stable I P (k a)) -> stable I P (bind m k).
Proof.
  intros Hm Hk w w' HI. unfold bind.
  destruct (m w) as [a w1| w1 | w1 |] eqn:E; simpl; intros Hf;
    try discriminate;
    try (apply (Hm w w' HI); rewrite E; exact Hf).
  destruct (Hm w w1 HI) as [HI1 (evs1 & L1 & F1)]; [rewrite E; reflexivity|].
  destruct (Hk a w1 w' HI1 Hf) as [HI' (evs2 & L2 & F2)].
  split; [exact HI'|]. exists (evs1 ++ evs2).
  rewrite L2, L1, app_assoc. split; [reflexivity|].
  apply Forall_app; auto.
Qed.

Lemma stable_read {A} (f : Globals -> A) : stable I P (read f).
Proof.
  intros w w' HI [= <-]. split; [exact HI|].
  exists []. rewrite app_nil_r. auto.
Qed.

(** What [read] returns comes from globals that satisfy [I]. *)
Lemma stable_bind_read {A B} (f : Globals -> A) (k : A -> M B) :
  (forall g, I g -> stable I P (k (f g))) -> stable I P (bind (read f) k).
Proof.
  intros Hk w w' HI Hf. unfold bind, read in Hf.
  exact (Hk (glob w) HI w w' HI Hf).
Qed.

Lemma stable_modify (f : Globals -> Globals) :
  (forall g, I g -> I (f g)) -> stable I P (modify f).
Proof.
  intros Hf w w' HI [= <-]. simpl. split; [auto|].
  exists []. rewrite app_nil_r. auto.
Qed.

Lemma stable_emit (ev : Event) : P ev -> stable I P (emit ev).
Proof.
  intros Hev w w' HI [= <-]. simpl. split; [exact HI|].
  exists [ev]. auto.
Qed.

Lemma stable_set_gpu (g : Gpu) : stable I P (set_gpu g).
Proof.
  intros w w' HI [= <-]. simpl. split; [exact HI|].
  exists []. rewrite app_nil_r. auto.
Qed.

Lemma stable_set_swap (s : SwapChain) : stable I P (set_swap s).
Proof.
  intros w w' HI [= <-]. simpl. split; [exact HI|].
  exists []. rewrite app_nil_r. auto.
Qed.

Lemma stable_set_win (x : Window) : stable I P (set_win x).
Proof.
  intros w w' HI [= <-]. simpl. split; [exact HI|].
  exists []. rewrite app_nil_r. auto.
Qed.

Lemma stable_throw {A} : stable I P (@throw A).
Proof.
  intros w w' HI [= <-]. split; [exact HI|].
  exists []. rewrite app_nil_r. auto.
Qed.

Lemma stable_block {A} : stable I P (@block A).
Proof.
  intros w w' HI [= <-]. split; [exact HI|].
  exists []. rewrite app_nil_r. auto.
Qed.

Lemma stable_undefined {A} : stable I P (@undefined A).
Proof. intros w w' HI [=]. Qed.

Lemma stable_get_gpu : stable I P get_gpu.
Proof.
  intros w w' HI [= <-]. split; [exact HI|].
  exists []. rewrite app_nil_r. auto.
Qed.

Lemma stable_get_win : stable I P get_win.
Proof.
  intros w w' HI [= <-]. split; [exact HI|].
  exists []. rewrite app_nil_r. auto.
Qed.

Lemma stable_for_each (l : list Z) (body : Z -> M unit) :
  (forall i, stable I P (body i)) -> stable I P (for_each l body).
Proof.
  intros Hb. induction l as [|i l IH]; simpl.
  - apply stable_ret.
  - apply stable_bind; auto.
Qed.
End Stable.

Ltac stable_step :=
  lazymatch goal with
  | |- stable _ _ (bind (read _) _) => apply stable_bind_read; intros ? ?
  | |- stable _ _ (bind _ _) => apply stable_bind; [|intros ?]
  | |- stable _ _ (ret _) => apply stable_ret
  | |- stable _ _ (read _) => apply stable_read
  | |- stable _ _ (emit _) => apply stable_emit
  | |- stable _ _ (modify _) => apply stable_modify
  | |- stable _ _ (set_gpu _) => apply stable_set_gpu
  | |- stable _ _ (set_swap _) => apply stable_set_swap
  | |- stable _ _ (set_win _) => apply stable_set_win
  | |- stable _ _ throw => apply stable_throw
  | |- stable _ _ block => apply stable_block
  | |- stable _ _ undefined => apply stable_undefined
  | |- stable _ _ (for_each _ _) => apply stable_for_each; intros ?
  | |- stable _ _ get_gpu => apply stable_get_gpu
  | |- stable _ _ get_win => apply stable_get_win
  | |- stable _ _ (if ?b then _ else _) => destruct b
  | |- stable _ _ (match ?x with _ => _ end) => destruct x
  | |- stable _ _ (let '(_, _) := ?x in _) => destruct x
  end.

(** The globals a function leaves alone are described by what its
    [modify] steps may do; [frame] collects the side conditions. *)
Ltac stable_unfold :=
  unfold Signal, WaitForFenceValue, Flush, UpdateRenderTargetViews,
    queue_Signal, fence_GetCompletedValue, fence_SetEventOnCompletion,
    WaitForSingleObject, commandList_Close, swapChain_Present,
    swapChain_GetCurrentBackBufferIndex, swapChain_GetDesc,
    swapChain_ResizeBuffers, swapChain_GetBuffer, GetWindowRect,
    SetWindowLongW, SetWindowPos, ShowWindow, ThrowIfFailed, array_get,
    array_set.

Ltac stable_auto := repeat (progress (stable_unfold; repeat stable_step)).

Lemma ascending_to_le c ps top : ascending_to c ps top -> c <= top.
Proof.
  revert c. induction ps as [|p ps IH]; simpl; intros c H.
  - lia.
  - destruct H as [Hlt H]. apply IH in H. lia.
Qed.

Lemma ascending_to_snoc c ps top v :
  ascending_to c ps top -> top < v -> ascending_to c (ps ++ [v]) v.
Proof.
  revert c. induction ps as [|p ps IH]; simpl; intros c H Hv.
  - subst. auto.
  - destruct H as [Hlt H]. split; [exact Hlt|]. apply IH; assumption.
Qed.

Lemma gpu_retire_ascending k c ps top :
  ascending_to c ps top ->
  ascending_to (gpu_retire k c ps).1 (gpu_retire k c ps).2 top
  /\ c <= (gpu_retire k c ps).1.
Proof.
  revert c ps. induction k as [|k IH]; intros c ps H.
  - simpl. split; [exact H | lia].
  - destruct ps as [|p ps]; simpl.
    + split; [exact H | lia].
    + destruct H as [Hlt H]. destruct (IH p ps H) as [H1 H2].
      split; [exact H1 | lia].
Qed.

Lemma gpu_run_until_ascending v c ps top :
  ascending_to c ps top -> v <= top ->
  exists c' ps',
    gpu_run_until v c ps = Some (c', ps')
    /\ ascending_to c' ps' top /\ v <= c' /\ c <= c'.
Proof.
  revert c. induction ps as [|p ps IH]; intros c H Hv; simpl.
  - simpl in H. subst c. rewrite (proj2 (Z.leb_le v top) Hv).
    exists top, []. simpl. repeat split; auto; lia.
  - destruct (v <=? c) eqn:E.
    + apply Z.leb_le in E. exists c, (p :: ps).
      split; [reflexivity|]. split; [exact H|]. lia.
    + destruct H as [Hlt H].
      destruct (IH p H Hv) as (c' & ps' & R & A & V & L).
      exists c', ps'. repeat split; auto; lia.
Qed.

Lemma gpu_step_ok k g top :
  gpu_ok g top ->
  gpu_ok (gpu_step k g) top
  /\ fence_completed g <= fence_completed (gpu_step k g).
Proof.
  intros H. unfold gpu_ok, gpu_step in *.
  pose proof (gpu_retire_ascending k _ _ _ H) as [H1 H2].
  destruct (gpu_retire k (fence_completed g) (fence_pending g)) as [c ps].
  simpl in *. auto.
Qed.

(** ** Small facts *)

Lemma FAILED_false hr : 0 <= hr -> FAILED hr = false.
Proof. intros H. unfold FAILED. apply Z.ltb_ge. exact H. Qed.

Lemma wrap64_small z : 0 <= z < UINT64_MAX -> wrap64 (z + 1) = z + 1.
Proof.
  unfold wrap64, UINT64_MAX. intros H. apply Z.mod_small. lia.
Qed.

Lemma wrap32_milliseconds_max : wrap32 milliseconds_max = INFINITE.
Proof. reflexivity. Qed.

Lemma FAILED_true hr : hr < 0 -> FAILED hr = true.
Proof. intros H. unfold FAILED. apply Z.ltb_lt. exact H. Qed.

Lemma index_cases i : 0 <= i < g_NumFrames -> i = 0 \/ i = 1.
Proof. unfold g_NumFrames. lia. Qed.

Lemma length_two {A} (l : list A) :
  length l = 2%nat -> exists a b, l = [a; b].
Proof.
  destruct l as [|a [|b [|c l]]]; simpl; intros H; try discriminate.
  eauto.
Qed.

Lemma indices_NumFrames : indices g_NumFrames = [0; 1].
Proof. reflexivity. Qed.

Lemma gpu_ok_signal g top v :
  gpu_ok g top -> top < v ->
  gpu_ok
    (mkGpu (fence_completed g) (fence_pending g ++ [v]) (event_target g)) v.
Proof. unfold gpu_ok. simpl. apply ascending_to_snoc. Qed.

(** * The functions one by one

    Each lemma describes a call in a well-formed world: either every checked
    call succeeds and the lemma gives the world the function returns in, or
    one of them fails and the function ends in [Thrown]. *)

(** ** [Signal], [WaitForFenceValue] and [Flush] *)

Lemma Signal_ok e w :
  0 <= hr_Signal e ->
  Signal e w =
    Ok (wrap64 (g_FenceValue (glob w) + 1))
      (mkWorld
         (with_FenceValue (wrap64 (g_FenceValue (glob w) + 1)) (glob w))
         (mkGpu (fence_completed (gpu w))
            (fence_pending (gpu w) ++ [wrap64 (g_FenceValue (glob w) + 1)])
            (event_target (gpu w)))
         (swap w) (win w)
         (log w ++ [EvQueueSignal (wrap64 (g_FenceValue (glob w) + 1))])).
Proof.
  intros H. unfold Signal, queue_Signal, ThrowIfFailed, bind, read, modify,
    emit, get_gpu, set_gpu, ret.
  simpl. rewrite (FAILED_false _ H). simpl. rewrite (FAILED_false _ H).
  reflexivity.
Qed.

Lemma Signal_thrown e w :
  hr_Signal e < 0 -> exists w', Signal e w = Thrown w'.
Proof.
  intros H. unfold Signal, queue_Signal, ThrowIfFailed, bind, read, modify,
    emit, get_gpu, set_gpu, ret.
  simpl. rewrite (FAILED_true _ H). simpl. rewrite (FAILED_true _ H).
  eexists. reflexivity.
Qed.

Lemma WaitForFenceValue_cases e v w top :
  gpu_ok (gpu w) top -> v <= top ->
  (exists g c,
     WaitForFenceValue e v milliseconds_max w =
       Ok tt (mkWorld (glob w) g (swap w) (win w) (log w ++ wait_events c v))
     /\ gpu_ok g top
     /\ v <= fence_completed g
     /\ fence_completed (gpu w) <= c <= fence_completed g)
  \/ (hr_SetEventOnCompletion e < 0
      /\ exists w', WaitForFenceValue e v milliseconds_max w = Thrown w').
Proof.
  intros Hg Hv.
  destruct (gpu_step_ok (gpu_progress e) _ _ Hg) as [Hg1 Hle1].
  unfold WaitForFenceValue, fence_GetCompletedValue, bind, get_gpu, set_gpu,
    emit, ret.
  simpl. unfold wait_events.
  set (g1 := gpu_step (gpu_progress e) (gpu w)) in *.
  destruct (fence_completed g1 <? v) eqn:E.
  - unfold fence_SetEventOnCompletion, ThrowIfFailed, WaitForSingleObject,
      bind, get_gpu, set_gpu, emit, ret, block. simpl.
    destruct (Z.lt_ge_cases (hr_SetEventOnCompletion e) 0) as [Hhr | Hhr].
    + right. split; [exact Hhr|].
      rewrite (FAILED_true _ Hhr). simpl. rewrite (FAILED_true _ Hhr).
      eexists. reflexivity.
    + left.
      rewrite (FAILED_false _ Hhr). simpl. rewrite (FAILED_false _ Hhr).
      rewrite wrap32_milliseconds_max. simpl.
      destruct (gpu_run_until_ascending v _ _ _ Hg1 Hv)
        as (c' & ps' & R & A & V & L).
      rewrite R. exists (mkGpu c' ps' None), (fence_completed g1).
      rewrite E, <- !app_assoc. simpl.
      repeat split; auto; lia.
  - left. exists g1, (fence_completed g1). rewrite E.
    apply Z.ltb_ge in E. repeat split; auto; lia.
Qed.

Lemma Flush_cases e w :
  0 <= g_FenceValue (glob w) < UINT64_MAX ->
  gpu_ok (gpu w) (g_FenceValue (glob w)) ->
  (exists g c,
     Flush e w =
       Ok tt
         (mkWorld (with_FenceValue (g_FenceValue (glob w) + 1) (glob w)) g
            (swap w) (win w)
            (log w ++ EvQueueSignal (g_FenceValue (glob w) + 1)
                   :: wait_events c (g_FenceValue (glob w) + 1)))
     /\ gpu_ok g (g_FenceValue (glob w) + 1)
     /\ fence_completed g = g_FenceValue (glob w) + 1
     /\ fence_pending g = [])
  \/ (~ calls_succeed e /\ exists w', Flush e w = Thrown w').
Proof.
  intros Hfv Hg. unfold Flush, bind.
  destruct (Z.lt_ge_cases (hr_Signal e) 0) as [Hs | Hs].
  { right. split; [intros []; lia|].
    destruct (Signal_thrown e w Hs) as [w' ->]. eauto. }
  rewrite (Signal_ok _ _ Hs), (wrap64_small _ Hfv).
  set (top := g_FenceValue (glob w) + 1).
  match goal with
  | |- context [WaitForFenceValue e top milliseconds_max ?w1] =>
      destruct (WaitForFenceValue_cases e top w1 top)
        as [(g & c & R & G & V & L) | (Hhr & w' & R)]
  end.
  - unfold gpu_ok in *. simpl.
    apply ascending_to_snoc with (top := g_FenceValue (glob w)); [exact Hg|].
    unfold top. lia.
  - lia.
  - left. simpl in R. rewrite R. exists g, c.
    rewrite <- app_assoc. simpl.
    pose proof (ascending_to_le _ _ _ G) as Hle.
    assert (Hc : fence_completed g = top) by lia.
    repeat split; auto.
    unfold gpu_ok in G. destruct (fence_pending g) as [|p ps]; [reflexivity|].
    simpl in G. destruct G as [Hlt G]. apply ascending_to_le in G. lia.
  - right. split; [intros []; lia|]. rewrite R. eauto.
Qed.

(** ** Composing calls that return or throw *)

Lemma cases_Ok {A} (a : A) w (Q : A -> World -> Prop) (F : Prop) :
  Q a w -> outcome_cases (Ok a w) Q F.
Proof. intros H. left. eauto. Qed.

Lemma cases_bind_Ok {A B} (m : M A) (k : A -> M B) w a w1 Q F :
  m w = Ok a w1 -> outcome_cases (k a w1) Q F ->
  outcome_cases (bind m k w) Q F.
Proof. intros E H. unfold bind. rewrite E. exact H. Qed.

Lemma cases_bind_Thrown {A B} (m : M A) (k : A -> M B) w w1
    (Q : B -> World -> Prop) (F : Prop) :
  m w = Thrown w1 -> F -> outcome_cases (bind m k w) Q F.
Proof. intros E H. unfold bind. rewrite E. right. eauto. Qed.

Lemma cases_bind_assoc {A B C} (m : M A) (f : A -> M B) (k : B -> M C) w
    Q F :
  outcome_cases (bind m (fun a => bind (f a) k) w) Q F ->
  outcome_cases (bind (bind m f) k w) Q F.
Proof. unfold bind. destruct (m w); auto. Qed.

Lemma ThrowIfFailed_Ok hr w : 0 <= hr -> ThrowIfFailed hr w = Ok tt w.
Proof. intros H. unfold ThrowIfFailed. rewrite (FAILED_false _ H). reflexivity. Qed.

Lemma ThrowIfFailed_Thrown hr w : hr < 0 -> ThrowIfFailed hr w = Thrown w.
Proof. intros H. unfold ThrowIfFailed. rewrite (FAILED_true _ H). reflexivity. Qed.

Ltac cbn_world :=
  cbn [glob gpu swap win log g_UseWarp g_ClientWidth g_ClientHeight
       g_IsInitialized g_WindowRect g_BackBuffers g_CurrentBackBufferIndex
       g_FenceValue g_FrameFenceValues g_VSync g_TearingSupported
       g_Fullscreen with_UseWarp with_ClientWidth with_ClientHeight
       with_WindowRect with_BackBuffers with_CurrentBackBufferIndex
       with_FenceValue with_FrameFenceValues with_VSync with_Fullscreen].

Lemma swapChain_ResizeBuffers_Ok e count width height w :
  0 <= hr_ResizeBuffers e ->
  swapChain_ResizeBuffers e count width height w
  = Ok (hr_ResizeBuffers e)
      (mkWorld (glob w) (gpu w) (mkSwapChain width height) (win w)
         (log w ++ [EvResizeBuffers count width height])).
Proof.
  intros H. unfold swapChain_ResizeBuffers, bind, emit.
  rewrite (FAILED_false _ H). reflexivity.
Qed.

Lemma swapChain_ResizeBuffers_failed e count width height w :
  hr_ResizeBuffers e < 0 ->
  swapChain_ResizeBuffers e count width height w
  = Ok (hr_ResizeBuffers e)
      (mkWorld (glob w) (gpu w) (swap w) (win w)
         (log w ++ [EvResizeBuffers count width height])).
Proof.
  intros H. unfold swapChain_ResizeBuffers, bind, emit.
  rewrite (FAILED_true _ H). reflexivity.
Qed.

(** One step of a call that cannot fail. *)
Ltac flatten_bind :=
  repeat lazymatch goal with
         | |- outcome_cases (bind (bind _ _) _ _) _ _ =>
             apply cases_bind_assoc
         end.

Ltac step_ok :=
  flatten_bind; eapply cases_bind_Ok; [reflexivity|]; cbn_world.

(** One [ThrowIfFailed] on the HRESULT [hr] of the environment. *)
Ltac step_hr hr :=
  let H := fresh "H" in
  destruct (Z.lt_ge_cases hr 0) as [H | H];
  [ eapply cases_bind_Thrown;
    [ apply ThrowIfFailed_Thrown; exact H
    | intros [? ? ? ? ? ? HG]; pose proof (HG 0); pose proof (HG 1); lia ]
  | eapply cases_bind_Ok; [apply ThrowIfFailed_Ok; exact H|]; cbn_world ].

(** [Signal] in the middle of a function. *)
Ltac step_Signal e :=
  let H := fresh "H" in
  destruct (Z.lt_ge_cases (hr_Signal e) 0) as [H | H];
  [ lazymatch goal with
    | |- outcome_cases (bind (Signal _) _ ?w1) _ _ =>
        let w' := fresh "w'" in
        let E := fresh "E" in
        destruct (Signal_thrown e w1 H) as [w' E];
        eapply cases_bind_Thrown; [exact E | intros []; lia]
    end
  | eapply cases_bind_Ok; [apply Signal_ok; exact H|]; cbn_world ].

(** ** [Render] and [Resize] *)

Lemma Render_cases e w :
  index_ok e -> world_ok w ->
  (exists g c wm,
     Render e w =
       Ok tt
         (mkWorld
            (with_CurrentBackBufferIndex (sc_index e)
               (with_FrameFenceValues
                  (<[Z.to_nat (g_CurrentBackBufferIndex (glob w))
                     := g_FenceValue (glob w) + 1]>
                     (g_FrameFenceValues (glob w)))
                  (with_FenceValue (g_FenceValue (glob w) + 1) (glob w))))
            g (swap w) (win w)
            (log w
               ++ render_events (g_CurrentBackBufferIndex (glob w))
                    (if g_VSync (glob w) then 1 else 0)
                    (if g_TearingSupported (glob w) && negb (g_VSync (glob w))
                     then DXGI_PRESENT_ALLOW_TEARING else 0)
                    (g_FenceValue (glob w) + 1) (sc_index e)
               ++ wait_events c wm))
     /\ <[Z.to_nat (g_CurrentBackBufferIndex (glob w))
          := g_FenceValue (glob w) + 1]> (g_FrameFenceValues (glob w))
          !! Z.to_nat (sc_index e) = Some wm
     /\ gpu_ok g (g_FenceValue (glob w) + 1)
     /\ wm <= fence_completed g
     /\ fence_completed (gpu w) <= fence_completed g)
  \/ (~ calls_succeed e /\ exists w', Render e w = Thrown w').
Proof.
  intros He Hw. destruct Hw. unfold index_ok in He.
  destruct w as [gl gp sw wi lg]. simpl in *.
  destruct gl as [warp cw ch ini wr bbs idx fv ffv vs ts fs]. simpl in *.
  destruct (length_two _ ok_length0) as (a & b & ->). subst bbs.
  apply Forall_cons in ok_watermarks0 as [Ha Hb'].
  apply Forall_cons in Hb' as [Hb _].
  match goal with
  | |- (exists g c wm, ?o = Ok tt (@?W g c wm) /\ @?P g c wm) \/ _ =>
      enough (outcome_cases o
                (fun _ w' => exists g c wm, w' = W g c wm /\ P g c wm)
                (~ calls_succeed e))
        as [(? & w' & E & g & c & wm & -> & HP) | HT]
  end.
  { left. exists g, c, wm. destruct x. auto. }
  { right. exact HT. }
  unfold Render.
  destruct (index_cases _ ok_index0) as [-> | ->];
    destruct (index_cases _ He) as [Hn | Hn].
  all: repeat step_ok.
  all: flatten_bind; step_hr (hr_Close e).
  all: repeat step_ok.
  all: flatten_bind; step_hr (hr_Present e).
  all: step_Signal e.
  all: rewrite (wrap64_small fv ok_counter0).
  all: repeat step_ok.
  all: rewrite Hn; repeat step_ok.
  all: lazymatch goal with
       | |- outcome_cases (WaitForFenceValue _ ?v _ ?w1) _ _ =>
           destruct (WaitForFenceValue_cases e v w1 (fv + 1))
             as [(g & c & R & G & V & L) | (Hhr & w' & R)];
             [ apply gpu_ok_signal with (top := fv); [assumption | lia]
             | simpl; lia
             | rewrite R; apply cases_Ok
             | rewrite R; right; split; [intros []; lia | eauto] ]
       end.
  all: eexists g, c, _; (split; [|split; [reflexivity|]]).
  all: simpl in G, V, L |- *.
  all: try (unfold render_events; rewrite <- !app_assoc; reflexivity).
  all: repeat split; auto; lia.
Qed.

(** [ResizeBuffers] and the [ThrowIfFailed] around it. *)
Ltac step_ResizeBuffers e :=
  let H := fresh "H" in
  destruct (Z.lt_ge_cases (hr_ResizeBuffers e) 0) as [H | H];
  [ eapply cases_bind_Ok;
    [apply swapChain_ResizeBuffers_failed; exact H|]; cbn_world;
    eapply cases_bind_Thrown;
    [ apply ThrowIfFailed_Thrown; exact H
    | intros [? ? ? ? ? ? HG]; lia ]
  | eapply cases_bind_Ok;
    [apply swapChain_ResizeBuffers_Ok; exact H|]; cbn_world;
    eapply cases_bind_Ok; [apply ThrowIfFailed_Ok; exact H|]; cbn_world ].

Lemma Resize_cases e width height w :
  index_ok e -> world_ok w ->
  g_ClientWidth (glob w) <> width \/ g_ClientHeight (glob w) <> height ->
  (exists g c wm,
     Resize e width height w =
       Ok tt
         (mkWorld
            (mkGlobals (g_UseWarp (glob w)) (Z.max 1 width) (Z.max 1 height)
               (g_IsInitialized (glob w)) (g_WindowRect (glob w))
               [Some 0; Some 1] (sc_index e) (g_FenceValue (glob w) + 1)
               [wm; wm] (g_VSync (glob w)) (g_TearingSupported (glob w))
               (g_Fullscreen (glob w)))
            g (mkSwapChain (Z.max 1 width) (Z.max 1 height)) (win w)
            (log w
               ++ resize_events (g_FenceValue (glob w) + 1) c
                    (Z.max 1 width) (Z.max 1 height) (sc_index e)))
     /\ g_FrameFenceValues (glob w)
          !! Z.to_nat (g_CurrentBackBufferIndex (glob w)) = Some wm
     /\ fence_completed g = g_FenceValue (glob w) + 1
     /\ fence_pending g = []
     /\ Flush e
          (mkWorld
             (with_ClientHeight (Z.max 1 height)
                (with_ClientWidth (Z.max 1 width) (glob w)))
             (gpu w) (swap w) (win w) (log w))
        = Ok tt
            (mkWorld
               (with_FenceValue (g_FenceValue (glob w) + 1)
                  (with_ClientHeight (Z.max 1 height)
                     (with_ClientWidth (Z.max 1 width) (glob w))))
               g (swap w) (win w)
               (log w ++ EvQueueSignal (g_FenceValue (glob w) + 1)
                      :: wait_events c (g_FenceValue (glob w) + 1))))
  \/ (~ calls_succeed e /\ exists w', Resize e width height w = Thrown w').
Proof.
  intros He Hw Hne. destruct Hw.
  destruct w as [gl gp sw wi lg]. simpl in *.
  destruct gl as [warp cw ch ini wr bbs idx fv ffv vs ts fs]. simpl in *.
  destruct (length_two _ ok_length0) as (a & b & ->). subst bbs.
  assert (Hc : negb (cw =? width) || negb (ch =? height) = true).
  { destruct (Z.eqb_spec cw width), (Z.eqb_spec ch height); simpl; auto.
    destruct Hne; contradiction. }
  match goal with
  | |- (exists g c wm, ?o = Ok tt (@?W g c wm) /\ @?P g c wm) \/ _ =>
      enough (outcome_cases o
                (fun _ w' => exists g c wm, w' = W g c wm /\ P g c wm)
                (~ calls_succeed e)) as [(? & w' & E & g & c & wm & -> & HP) | HT]
  end.
  { left. exists g, c, wm. destruct x. auto. }
  { right. exact HT. }
  unfold Resize, UpdateRenderTargetViews.
  rewrite !indices_NumFrames. cbn [for_each].
  step_ok. step_ok. rewrite Hc. step_ok. step_ok.
  match goal with
  | |- outcome_cases (bind (Flush e) _ ?w1) _ _ =>
      destruct (Flush_cases e w1) as [(g & c & R & G & V & L) | (Hf & w' & R)];
        [simpl; auto .. | |]
  end.
  2: { eapply cases_bind_Thrown; eassumption. }
  eapply cases_bind_Ok; [exact R|]. cbn_world.
  destruct (index_cases _ ok_index0) as [-> | ->].
  all: repeat step_ok.
  all: flatten_bind; step_hr (hr_GetDesc e).
  all: repeat step_ok.
  all: step_ResizeBuffers e.
  all: repeat step_ok.
  all: flatten_bind; step_hr (hr_GetBuffer e 0).
  all: repeat step_ok.
  all: flatten_bind; step_hr (hr_GetBuffer e 1).
  all: repeat step_ok.
  all: apply cases_Ok.
  all: eexists g, c, _; (split; [|split; [reflexivity|]]).
  all: try (unfold resize_events; rewrite <- !app_assoc; reflexivity).
  all: repeat split; try assumption; exact R.
Qed.

(** ** Messages that never touch the GPU *)

Lemma world_ok_sync w w' :
  sync_state w' = sync_state w -> world_ok w -> world_ok w'.
Proof.
  unfold sync_state. intros [= Hi Hb Hf Hv Hg] [].
  constructor; rewrite ?Hi, ?Hb, ?Hf, ?Hv, ?Hg; assumption.
Qed.

Lemma reset_safe_sync w w' :
  sync_state w' = sync_state w -> reset_safe w -> reset_safe w'.
Proof.
  unfold sync_state, reset_safe. intros [= Hi Hb Hf Hv Hg] (v & L & C).
  exists v. rewrite Hi, Hv, Hg. auto.
Qed.

Lemma SetFullscreen_sync e fullscreen w :
  exists w', SetFullscreen e fullscreen w = Ok tt w'
             /\ sync_state w' = sync_state w.
Proof.
  unfold SetFullscreen, bind, read, modify, GetWindowRect, SetWindowLongW,
    SetWindowPos, ShowWindow, emit, get_win, set_win, ret.
  simpl. destruct (negb (Bool.eqb (g_Fullscreen (glob w)) fullscreen)); simpl.
  - destruct fullscreen; simpl; eexists; split; reflexivity.
  - eexists; split; reflexivity.
Qed.

Lemma on_key_sync e wParam alt w :
  exists w', on_key e wParam alt w = Ok tt w'
             /\ sync_state w' = sync_state w.
Proof.
  unfold on_key.
  destruct (wParam =? VK_V).
  { eexists; split; reflexivity. }
  destruct (wParam =? VK_ESCAPE).
  { eexists; split; reflexivity. }
  destruct (wParam =? VK_RETURN).
  { destruct alt; [|eexists; split; reflexivity].
    unfold bind, read. apply SetFullscreen_sync. }
  destruct (wParam =? VK_F11).
  { unfold bind, read. apply SetFullscreen_sync. }
  eexists; split; reflexivity.
Qed.

(** ** One message keeps the world well formed *)

Lemma Render_preserves e w w' :
  index_ok e -> world_ok w -> g_FenceValue (glob w) + 1 < UINT64_MAX ->
  Render e w = Ok tt w' ->
  world_ok w' /\ reset_safe w'
  /\ g_FenceValue (glob w') = g_FenceValue (glob w) + 1.
Proof.
  intros He Hw Hmax HR.
  destruct (Render_cases e w He Hw)
    as [(g & c & wm & R & Hwm & G & V & L) | (_ & w1 & R)];
    rewrite R in HR; [|discriminate].
  injection HR as <-. destruct Hw. unfold index_ok in He.
  split; [|split]; simpl.
  - constructor; simpl; auto.
    + rewrite length_insert. assumption.
    + apply Forall_insert; [|lia].
      eapply Forall_impl; [eassumption|]. simpl. intros. lia.
    + lia.
  - exists wm. simpl. auto.
  - reflexivity.
Qed.

Lemma Render_total e w :
  env_ok e -> world_ok w -> exists w', Render e w = Ok tt w'.
Proof.
  intros [Hc He] Hw.
  destruct (Render_cases e w He Hw)
    as [(g & c & wm & R & _) | (Hn & _)]; [eauto | contradiction].
Qed.

Lemma Resize_same_size e width height w :
  g_ClientWidth (glob w) = width -> g_ClientHeight (glob w) = height ->
  Resize e width height w = Ok tt w.
Proof.
  intros Hw Hh. unfold Resize, bind, read.
  rewrite Hw, Hh, !Z.eqb_refl. reflexivity.
Qed.

Lemma size_cases (w : World) width height :
  (g_ClientWidth (glob w) = width /\ g_ClientHeight (glob w) = height)
  \/ (g_ClientWidth (glob w) <> width \/ g_ClientHeight (glob w) <> height).
Proof. lia. Qed.

Lemma Resize_preserves e width height w w' :
  index_ok e -> world_ok w -> g_FenceValue (glob w) + 1 < UINT64_MAX ->
  Resize e width height w = Ok tt w' ->
  (reset_safe w -> reset_safe w') /\ world_ok w'
  /\ g_FenceValue (glob w) <= g_FenceValue (glob w')
     <= g_FenceValue (glob w) + 1.
Proof.
  intros He Hw Hmax HR.
  destruct (size_cases w width height) as [[H1 H2] | Hne].
  { rewrite (Resize_same_size _ _ _ _ H1 H2) in HR. injection HR as <-.
    split; [auto | split; [assumption | lia]]. }
  destruct (Resize_cases e width height w He Hw Hne)
    as [(g & c & wm & R & Hwm & G & V & _) | (_ & w1 & R)];
    rewrite R in HR; [|discriminate].
  injection HR as <-. pose proof Hw as Hw0. destruct Hw. unfold index_ok in He.
  assert (Hle : wm <= g_FenceValue (glob w)).
  { eapply Forall_lookup_1 in Hwm; [|eassumption]. exact Hwm. }
  split; [|split]; simpl.
  - intros _. exists wm. simpl. split; [|lia].
    destruct (index_cases _ He) as [-> | ->]; reflexivity.
  - constructor; simpl; auto.
    + repeat constructor; lia.
    + lia.
    + unfold gpu_ok. rewrite G, V. reflexivity.
  - lia.
Qed.

Lemma Resize_total e width height w :
  env_ok e -> world_ok w -> exists w', Resize e width height w = Ok tt w'.
Proof.
  intros [Hc He] Hw.
  destruct (size_cases w width height) as [[H1 H2] | Hne].
  { rewrite (Resize_same_size _ _ _ _ H1 H2). eauto. }
  destruct (Resize_cases e width height w He Hw Hne)
    as [(g & c & wm & R & _) | (Hn & _)]; [eauto | contradiction].
Qed.

Lemma WndProc_preserves e message w w' :
  index_ok e -> world_ok w -> reset_safe w ->
  g_FenceValue (glob w) + 1 < UINT64_MAX ->
  WndProc e message w = Ok tt w' ->
  world_ok w' /\ reset_safe w'
  /\ g_FenceValue (glob w) <= g_FenceValue (glob w')
     <= g_FenceValue (glob w) + 1.
Proof.
  intros He Hw Hs Hmax. unfold WndProc, bind, read.
  assert (Hkeep : forall w1 : World, sync_state w1 = sync_state w ->
            world_ok w1 /\ reset_safe w1
            /\ g_FenceValue (glob w) <= g_FenceValue (glob w1)
               <= g_FenceValue (glob w) + 1).
  { intros w1 E. split; [|split].
    - eapply world_ok_sync; eassumption.
    - eapply reset_safe_sync; eassumption.
    - injection E as _ _ -> _ _. lia. }
  destruct (g_IsInitialized (glob w)).
  2: { intros [= <-]. apply Hkeep. reflexivity. }
  destruct message as [| wParam alt | wParam alt | | clientRect | |].
  - intros HR. destruct (Render_preserves _ _ _ He Hw Hmax HR) as (A & B & C).
    split; [assumption | split; [assumption | lia]].
  - intros HR. destruct (on_key_sync e wParam alt w) as (w1 & R & E).
    rewrite R in HR. injection HR as <-. auto.
  - intros HR. destruct (on_key_sync e wParam alt w) as (w1 & R & E).
    rewrite R in HR. injection HR as <-. auto.
  - intros [= <-]. apply Hkeep. reflexivity.
  - intros HR. destruct (Resize_preserves _ _ _ _ _ He Hw Hmax HR) as (A & B & C).
    auto.
  - intros [= <-]. apply Hkeep. reflexivity.
  - intros [= <-]. apply Hkeep. reflexivity.
Qed.

Lemma WndProc_total e message w :
  env_ok e -> world_ok w -> exists w', WndProc e message w = Ok tt w'.
Proof.
  intros He Hw. unfold WndProc, bind, read.
  destruct (g_IsInitialized (glob w)); [|eexists; reflexivity].
  destruct message as [| wParam alt | wParam alt | | clientRect | |];
    try (eexists; reflexivity).
  - apply Render_total; assumption.
  - destruct (on_key_sync e wParam alt w) as (w1 & R & _). eauto.
  - destruct (on_key_sync e wParam alt w) as (w1 & R & _). eauto.
  - apply Resize_total; assumption.
Qed.

(** ** Whole runs *)

Lemma step_preserves s w w' :
  step_index_ok s -> world_ok w -> reset_safe w ->
  g_FenceValue (glob w) + 1 < UINT64_MAX ->
  step s w = Ok tt w' ->
  world_ok w' /\ reset_safe w'
  /\ g_FenceValue (glob w) <= g_FenceValue (glob w')
     <= g_FenceValue (glob w) + 1.
Proof.
  destruct s as [e message | k]; simpl.
  - apply WndProc_preserves.
  - intros _ Hw (v & L & C) Hmax [= <-]. destruct Hw.
    destruct (gpu_step_ok k _ _ ok_gpu0) as [G1 G2].
    split; [|split]; simpl.
    + constructor; simpl; auto.
    + exists v. simpl. split; [exact L | lia].
    + lia.
Qed.

Lemma run_preserves script :
  forall w w',
    Forall step_index_ok script -> world_ok w -> reset_safe w ->
    g_FenceValue (glob w) + Z.of_nat (length script) < UINT64_MAX ->
    run script w = Ok tt w' ->
    world_ok w' /\ reset_safe w'
    /\ g_FenceValue (glob w) <= g_FenceValue (glob w')
       <= g_FenceValue (glob w) + Z.of_nat (length script).
Proof.
  induction script as [|s script IH]; intros w w' Hi Hw Hs Hmax.
  - simpl. intros [= <-]. split; [assumption | split; [assumption | lia]].
  - apply Forall_cons in Hi as [Hi1 Hi2].
    simpl run. unfold bind. destruct (step s w) as [[] w1| | |] eqn:E;
      try discriminate.
    intros HR. simpl length in *.
    destruct (step_preserves s w w1 Hi1 Hw Hs) as (A & B & C); [lia | exact E |].
    destruct (IH w1 w' Hi2 A B) as (A' & B' & C'); [lia | exact HR |].
    split; [assumption | split; [assumption | lia]].
Qed.

Lemma run_total script :
  forall w,
    Forall step_index_ok script -> Forall step_succeeds script ->
    world_ok w -> reset_safe w ->
    g_FenceValue (glob w) + Z.of_nat (length script) < UINT64_MAX ->
    exists w', run script w = Ok tt w'.
Proof.
  induction script as [|s script IH]; intros w Hi Hc Hw Hs Hmax.
  - simpl. eexists. reflexivity.
  - apply Forall_cons in Hi as [Hi1 Hi2]. apply Forall_cons in Hc as [Hc1 Hc2].
    simpl length in *.
    assert (exists w1, step s w = Ok tt w1) as [w1 E].
    { destruct s as [e message | k]; simpl.
      - apply WndProc_total; [split; assumption | assumption].
      - eexists. reflexivity. }
    destruct (step_preserves s w w1 Hi1 Hw Hs) as (A & B & C); [lia | exact E |].
    destruct (IH w1 Hi2 Hc2 A B) as [w' R]; [lia|].
    exists w'. simpl run. unfold bind. rewrite E. exact R.
Qed.

Lemma startup_ok width height warp tearing rect index :
  0 <= index < g_NumFrames ->
  world_ok (startup width height warp tearing rect index)
  /\ reset_safe (startup width height warp tearing rect index).
Proof.
  intros Hi. split.
  - constructor; simpl; auto.
    + repeat constructor; lia.
    + unfold UINT64_MAX. lia.
    + reflexivity.
  - unfold reset_safe. simpl. exists 0.
    destruct (index_cases _ Hi) as [-> | ->]; split; (reflexivity || lia).
Qed.

(** ** The command line *)






(** ** What holds however a call ends *)

Lemma Render_present_stable e vsync tearing :
  stable (fun g => g_VSync g = vsync /\ g_TearingSupported g = tearing)
    (present_args vsync tearing) (Render e).
Proof.
  unfold Render. stable_auto; simpl; auto.
  all: try (intros ? [? ?]; simpl; auto).
  repeat match goal with
         | H : g_VSync ?g = _ /\ g_TearingSupported ?g = _ |- _ =>
             let E1 := fresh "E" in
             let E2 := fresh "E" in
             destruct H as [E1 E2]; rewrite ?E1, ?E2; clear E1 E2
         end.
  split; reflexivity.
Qed.

Lemma Resize_dimensions_any e width height w w' :
  g_ClientWidth (glob w) <> width \/ g_ClientHeight (glob w) <> height ->
  final_world (Resize e width height w) = Some w' ->
  g_ClientWidth (glob w') = Z.max 1 width
  /\ g_ClientHeight (glob w') = Z.max 1 height.
Proof.
  intros Hne.
  assert (Hc : negb (g_ClientWidth (glob w) =? width)
               || negb (g_ClientHeight (glob w) =? height) = true).
  { destruct (Z.eqb_spec (g_ClientWidth (glob w)) width),
      (Z.eqb_spec (g_ClientHeight (glob w)) height); simpl; auto.
    destruct Hne; contradiction. }
  unfold Resize.
  unfold bind at 1. unfold read at 1. unfold bind at 1. unfold read at 1.
  rewrite Hc.
  unfold bind at 1. unfold modify at 1. unfold bind at 1. unfold modify at 1.
  intros Hf.
  match type of Hf with
  | final_world (bind ?m ?k ?w2) = Some _ =>
      assert (S : stable
                    (fun g => g_ClientWidth g = Z.max 1 width
                              /\ g_ClientHeight g = Z.max 1 height)
                    (fun _ => True) (bind m k))
  end.
  { unfold UpdateRenderTargetViews. stable_auto; simpl; auto.
    all: try (intros ? [? ?]; simpl; auto). }
  eapply S in Hf; [destruct Hf as [HI _]; exact HI|].
  split; reflexivity.
Qed.

(** ** Consecutive frames *)

Lemma map_seq_shift (fv : Z) (n : nat) :
  map (fun k => fv + 1 + Z.of_nat k) (seq 1 n)
  = map (fun k => fv + Z.of_nat k) (seq 2 n).
Proof.
  rewrite <- (seq_shift n 1), map_map.
  apply map_ext. intros k. lia.
Qed.

Lemma bind_eq_Ok {A B} (m : M A) (k : A -> M B) w a w1 :
  m w = Ok a w1 -> bind m k w = k a w1.
Proof. intros E. unfold bind. rewrite E. reflexivity. Qed.

Lemma array_get_insert {A} (l : list A) i (v : A) w :
  0 <= i < g_NumFrames -> (Z.to_nat i < length l)%nat ->
  array_get (<[Z.to_nat i := v]> l) i w = Ok v w.
Proof.
  intros Hi Hl. unfold array_get.
  replace ((0 <=? i) && (i <? g_NumFrames)) with true
    by (symmetry; apply andb_true_intro; split;
        [apply Z.leb_le | apply Z.ltb_lt]; lia).
  rewrite list_lookup_insert_eq by exact Hl. reflexivity.
Qed.

Lemma render_cycles_ok es :
  forall w,
    Forall env_ok es -> world_ok w ->
    g_FenceValue (glob w) + Z.of_nat (length es) < UINT64_MAX ->
    exists w',
      render_cycles es w
      = Ok (map (fun k => g_FenceValue (glob w) + Z.of_nat k)
              (seq 1 (length es))) w'
      /\ g_FenceValue (glob w')
         = g_FenceValue (glob w) + Z.of_nat (length es).
Proof.
  induction es as [|e es IH]; intros w He Hw Hmax.
  - simpl. eexists. split; [reflexivity | lia].
  - apply Forall_cons in He as [[Hc Hi] He]. simpl length in *.
    destruct (Render_cases e w Hi Hw)
      as [(g & c & wm & R & Hwm & G & V & L) | (Hn & _)]; [|contradiction].
    match type of R with _ = Ok tt ?w1 =>
      destruct (Render_preserves e w w1 Hi Hw) as (Hw1 & _ & Hfv);
        [lia | exact R |];
      destruct (IH w1 He Hw1) as (w' & RC & F); [rewrite Hfv; lia|]
    end.
    exists w'. split.
    + simpl render_cycles.
      erewrite bind_eq_Ok by reflexivity.
      erewrite bind_eq_Ok by exact R.
      erewrite bind_eq_Ok by reflexivity.
      erewrite bind_eq_Ok.
      2: { apply array_get_insert; [apply Hw|].
           rewrite (ok_length _ Hw). destruct Hw as [Hidx _ _ _ _ _].
           unfold g_NumFrames in Hidx. lia. }
      erewrite bind_eq_Ok by exact RC.
      unfold ret. rewrite Hfv, map_seq_shift. reflexivity.
    + rewrite F, Hfv. lia.
Qed.

Lemma height_flag_not_width flag :
  is_height_flag flag = true -> is_width_flag flag = false.
Proof.
  unfold is_height_flag, is_width_flag. intros H.
  apply orb_true_iff in H as [H | H]; apply String.eqb_eq in H; subst;
    reflexivity.
Qed.


(** ** Command lines whose flags have their values *)

Lemma width_flag_not_warp flag :
  is_width_flag flag = true -> is_warp_flag flag = false.
Proof.
  unfold is_warp_flag, is_width_flag. intros H.
  apply orb_true_iff in H as [H | H]; apply String.eqb_eq in H; subst;
    reflexivity.
Qed.

Lemma height_flag_not_warp flag :
  is_height_flag flag = true -> is_warp_flag flag = false.
Proof.
  unfold is_warp_flag, is_height_flag. intros H.
  apply orb_true_iff in H as [H | H]; apply String.eqb_eq in H; subst;
    reflexivity.
Qed.

Lemma width_flag_not_height flag :
  is_width_flag flag = true -> is_height_flag flag = false.
Proof.
  unfold is_height_flag, is_width_flag. intros H.
  apply orb_true_iff in H as [H | H]; apply String.eqb_eq in H; subst;
    reflexivity.
Qed.

Lemma is_flag_false v :
  is_flag v = false ->
  is_width_flag v = false /\ is_height_flag v = false
  /\ is_warp_flag v = false.
Proof.
  unfold is_flag. intros H.
  apply orb_false_elim in H as [H H3]. apply orb_false_elim in H as [H1 H2].
  auto.
Qed.

(** One iteration at a dimension flag that has its value. *)
Lemma parse_body_flag_value argv i g a v :
  argv !! i = Some a -> argv !! S i = Some v -> is_flag v = false ->
  (is_width_flag a = true ->
   parse_body argv i g
   = Some (S i, with_ClientWidth (wrap32 (wcstol v)) g))
  /\ (is_height_flag a = true ->
      parse_body argv i g
      = Some (S i, with_ClientHeight (wrap32 (wcstol v)) g)).
Proof.
  intros Ea Ev Hv. destruct (is_flag_false _ Hv) as (V1 & V2 & V3).
  unfold parse_body. rewrite Ea. simpl. split; intros Hf.
  - rewrite Hf. simpl. rewrite Ev. simpl. rewrite Ev. simpl.
    rewrite V2. simpl. rewrite Ev. simpl. rewrite V3. reflexivity.
  - rewrite (height_flag_not_width _ Hf). simpl. rewrite Ea. simpl.
    rewrite Hf. simpl. rewrite Ev. simpl. rewrite Ev. simpl.
    rewrite V3. reflexivity.
Qed.

(** One iteration at an argument that is no dimension flag. *)
Lemma parse_body_no_dimension argv i g a :
  argv !! i = Some a ->
  is_width_flag a = false -> is_height_flag a = false ->
  parse_body argv i g
  = Some (i, if is_warp_flag a then with_UseWarp true g else g).
Proof.
  intros Ea Hw Hh. unfold parse_body. rewrite Ea. simpl.
  rewrite Hw. simpl. rewrite Ea. simpl. rewrite Hh. simpl.
  rewrite Ea. reflexivity.
Qed.

Lemma drop_cons_lookup {A} (l : list A) i x rest :
  drop i l = x :: rest -> l !! i = Some x /\ drop (S i) l = rest.
Proof.
  intros H.
  assert (E : l !! i = Some x).
  { rewrite <- (Nat.add_0_r i), <- lookup_drop, H. reflexivity. }
  split; [exact E|].
  rewrite (drop_S _ _ _ E) in H. injection H as H. exact H.
Qed.

Lemma values_follow_cons a rest :
  values_follow (a :: rest) = true ->
  values_follow rest = true
  /\ (is_width_flag a || is_height_flag a = true ->
      exists v rest', rest = v :: rest' /\ is_flag v = false).
Proof.
  simpl. intros H. apply andb_prop in H as [Ha Hr]. split; [exact Hr|].
  intros Hf. rewrite Hf in Ha. destruct rest as [|v rest']; [discriminate|].
  exists v, rest'. split; [reflexivity|]. apply negb_true_iff. exact Ha.
Qed.

(** The loop on a command line whose dimension flags have their values:
    it ends well, each dimension is what the argument after the last
    occurrence of its flag gives, and WARP is on when its flag occurs. *)
Lemma parse_loop_values_follow fuel argv :
  forall i g,
    values_follow (drop i argv) = true ->
    (length argv <= i + fuel)%nat ->
    exists g',
      parse_loop fuel argv i g = Parsed g'
      /\ g_ClientWidth g'
         = match last_value is_width_flag (drop i argv) with
           | Some v => wrap32 (wcstol v)
           | None => g_ClientWidth g
           end
      /\ g_ClientHeight g'
         = match last_value is_height_flag (drop i argv) with
           | Some v => wrap32 (wcstol v)
           | None => g_ClientHeight g
           end
      /\ g_UseWarp g' = g_UseWarp g || existsb is_warp_flag (drop i argv).
Proof.
  induction fuel as [|fuel IH]; intros i g Hvf Hlen; simpl.
  - destruct (Nat.ltb_spec i (length argv)) as [Hlt | Hge]; [lia|].
    rewrite drop_ge by exact Hge. exists g. simpl.
    rewrite orb_false_r. auto.
  - destruct (Nat.ltb_spec i (length argv)) as [Hlt | Hge].
    2: { rewrite drop_ge by exact Hge. exists g. simpl.
         rewrite orb_false_r. auto. }
    destruct (lookup_lt_is_Some_2 argv i Hlt) as [a Ea].
    rewrite (drop_S _ _ _ Ea) in Hvf |- *.
    destruct (values_follow_cons _ _ Hvf) as [Hrest Hval].
    destruct (is_width_flag a) eqn:Fw; [|destruct (is_height_flag a) eqn:Fh].
    + destruct (Hval eq_refl) as (v & rest' & Ed & Hv).
      destruct (drop_cons_lookup _ _ _ _ Ed) as [Ev Ed'].
      destruct (is_flag_false _ Hv) as (V1 & V2 & V3).
      rewrite (proj1 (parse_body_flag_value argv i g a v Ea Ev Hv) Fw).
      rewrite Ed in Hrest |- *.
      destruct (values_follow_cons _ _ Hrest) as [Hrest' _].
      destruct (IH (S (S i)) (with_ClientWidth (wrap32 (wcstol v)) g))
        as (g' & R & W & H & P); [rewrite Ed'; exact Hrest' | lia |].
      rewrite Ed' in W, H, P. exists g'. split; [exact R|].
      simpl. rewrite V1, V2, V3, Fw, (width_flag_not_height _ Fw),
        (width_flag_not_warp _ Fw).
      simpl in W, H, P |- *. rewrite W, H, P.
      destruct (last_value is_width_flag rest');
        destruct (last_value is_height_flag rest'); auto.
    + destruct (Hval ltac:(rewrite orb_true_r; reflexivity))
        as (v & rest' & Ed & Hv).
      destruct (drop_cons_lookup _ _ _ _ Ed) as [Ev Ed'].
      destruct (is_flag_false _ Hv) as (V1 & V2 & V3).
      rewrite (proj2 (parse_body_flag_value argv i g a v Ea Ev Hv) Fh).
      rewrite Ed in Hrest |- *.
      destruct (values_follow_cons _ _ Hrest) as [Hrest' _].
      destruct (IH (S (S i)) (with_ClientHeight (wrap32 (wcstol v)) g))
        as (g' & R & W & H & P); [rewrite Ed'; exact Hrest' | lia |].
      rewrite Ed' in W, H, P. exists g'. split; [exact R|].
      simpl. rewrite V1, V2, V3, Fw, Fh, (height_flag_not_warp _ Fh).
      simpl in W, H, P |- *. rewrite W, H, P.
      destruct (last_value is_width_flag rest');
        destruct (last_value is_height_flag rest'); auto.
    + rewrite (parse_body_no_dimension argv i g a Ea Fw Fh).
      destruct (IH (S i) (if is_warp_flag a then with_UseWarp true g else g))
        as (g' & R & W & H & P); [exact Hrest | lia |].
      exists g'. split; [exact R|].
      simpl. rewrite Fw, Fh, W, H, P.
      destruct (is_warp_flag a); simpl;
        destruct (last_value is_width_flag (drop (S i) argv));
        destruct (last_value is_height_flag (drop (S i) argv));
        rewrite ?orb_true_r; auto.
Qed.





(** ** The one allocator [Render] resets *)

Lemma wait_events_no_reset c v s : ~ In (EvAllocatorReset s) (wait_events c v).
Proof.
  unfold wait_events. destruct (c <? v); simpl; intuition discriminate.
Qed.

Lemma Render_resets_current e w w' :
  index_ok e -> world_ok w -> Render e w = Ok tt w' ->
  exists evs,
    log w' = log w ++ EvAllocatorReset (g_CurrentBackBufferIndex (glob w)) :: evs
    /\ (forall s, ~ In (EvAllocatorReset s) evs)
    /\ reset_safe w'.
Proof.
  intros He Hw HR.
  destruct (Render_cases e w He Hw)
    as [(g & c & wm & R & Hwm & G & V & L) | (_ & w1 & R)];
    rewrite R in HR; [|discriminate].
  injection HR as <-. simpl. unfold render_events. simpl.
  eexists. split; [reflexivity|]. split; [|exists wm; simpl; auto].
  intros s Hin. simpl in Hin.
  repeat (destruct Hin as [Hin | Hin]; [discriminate|]).
    eapply wait_events_no_reset; exact Hin.
Qed.

(** ** The adapter *)



(** * The properties of the specification *)

(** ** Frame slots are reused only after the GPU is done with them *)

(** C1.  Start the program with any size and settings and let any sequence
    of window messages and GPU progress follow, DXGI answering with indices
    inside the ring and fewer than 2^64 - 1 steps being taken.  If no call
    fails the whole sequence runs.  However far it runs, it ends in a world
    in which the watermark recorded for the current slot has been reached
    by the fence; a [Render] called there resets, as its first call, the
    allocator of exactly that slot and no other allocator, and the wait that
    ends it leaves the watermark of the slot DXGI moves on to reached in its
    turn.  So every reset, whichever slot it falls on and whatever happened
    since the slot was last used, comes after completion. *)
Theorem reset_only_after_completion
    width height warp tearing rect index script :
  0 <= index < g_NumFrames ->
  Forall step_index_ok script ->
  Z.of_nat (length script) < UINT64_MAX ->
  (Forall step_succeeds script ->
   exists w', run script (startup width height warp tearing rect index)
              = Ok tt w')
  /\ (forall w',
        run script (startup width height warp tearing rect index) = Ok tt w' ->
        reset_safe w'
        /\ forall e w'',
             index_ok e -> Render e w' = Ok tt w'' ->
             exists evs,
               log w''
               = log w'
                 ++ EvAllocatorReset (g_CurrentBackBufferIndex (glob w'))
                    :: evs
               /\ (forall slot, ~ In (EvAllocatorReset slot) evs)
               /\ reset_safe w'').
Proof.
  intros Hi Hs Hlen.
  destruct (startup_ok width height warp tearing rect index Hi) as [Hw Hr].
  split.
  - intros Hc. apply run_total; auto.
  - intros w' HR.
    destruct (run_preserves script _ w' Hs Hw Hr) as (Hw' & R & _); auto.
    split; [exact R|].
    intros e w'' He HRender.
    apply (Render_resets_current e w' w'' He Hw' HRender).
Qed.

Lemma reset_only_after_completion_witness :
  exists w', run script_frames world_start = Ok tt w' /\ reset_safe w'.
Proof.
  destruct (reset_only_after_completion 1280 720 false false
              (mkRECT 100 100 1380 820) 0 script_frames) as [T S].
  - unfold g_NumFrames. lia.
  - repeat constructor; unfold index_ok, g_NumFrames; simpl; lia.
  - unfold UINT64_MAX. simpl. lia.
  - destruct T as [w' R].
    + repeat constructor; simpl; intros; lia.
    + exists w'. split; [exact R | exact (proj1 (S w' R))].
Defined.

(** ** Presentation *)

(** C2, as the program has it.  Whatever way [Render] ends, every [Present]
    it has issued carries sync interval 1 when V-Sync is on and 0 when it is
    off, whether or not the display supports tearing, and carries
    [DXGI_PRESENT_ALLOW_TEARING] exactly when V-Sync is off and tearing is
    supported. *)
Theorem present_arguments e w w' :
  final_world (Render e w) = Some w' ->
  exists evs,
    log w' = log w ++ evs
    /\ forall syncInterval presentFlags,
         In (EvPresent syncInterval presentFlags) evs ->
         syncInterval = (if g_VSync (glob w) then 1 else 0)
         /\ (presentFlags = DXGI_PRESENT_ALLOW_TEARING
             \/ presentFlags = 0)
         /\ (presentFlags = DXGI_PRESENT_ALLOW_TEARING <->
             g_VSync (glob w) = false /\ g_TearingSupported (glob w) = true).
Proof.
  intros Hf.
  destruct (Render_present_stable e (g_VSync (glob w))
              (g_TearingSupported (glob w)) w w') as [_ (evs & L & F)];
    auto.
  exists evs. split; [exact L|].
  intros si fl Hin. rewrite Forall_forall in F.
  apply list_elem_of_In in Hin. specialize (F _ Hin). simpl in F.
  destruct F as [-> ->]. split; [reflexivity|].
  unfold DXGI_PRESENT_ALLOW_TEARING.
  destruct (g_VSync (glob w)), (g_TearingSupported (glob w)); simpl;
    (split; [auto|]); split; intros H; try discriminate;
    try (destruct H; discriminate); auto.
Qed.

Lemma present_arguments_witness :
  exists w',
    final_world (Render (env_good 1 0) world_start) = Some w'
    /\ exists evs,
         log w' = log world_start ++ evs
         /\ forall syncInterval presentFlags,
              In (EvPresent syncInterval presentFlags) evs ->
              syncInterval = (if g_VSync (glob world_start) then 1 else 0)
              /\ (presentFlags = DXGI_PRESENT_ALLOW_TEARING
                  \/ presentFlags = 0)
              /\ (presentFlags = DXGI_PRESENT_ALLOW_TEARING <->
                  g_VSync (glob world_start) = false
                  /\ g_TearingSupported (glob world_start) = true).
Proof.
  exists world_after_first_frame. split; [vm_compute; reflexivity|].
  apply (present_arguments (env_good 1 0) world_start world_after_first_frame).
  vm_compute. reflexivity.
Defined.

(** C2 as the specification words it fails: with V-Sync switched off by the
    V key and a display without tearing support, the frame is presented
    with sync interval 0, not 1. *)
Lemma present_interval_counterexample :
  run script_vsync_off world_start = Ok tt world_after_vsync_off
  /\ g_VSync (glob world_after_vsync_off) = false
  /\ g_TearingSupported (glob world_after_vsync_off) = false
  /\ log world_after_vsync_off
     = render_events 0 0 0 1 1 ++ [EvGetCompletedValue 0]
  /\ In (EvPresent 0 0) (log world_after_vsync_off)
  /\ forall syncInterval presentFlags,
       In (EvPresent syncInterval presentFlags) (log world_after_vsync_off) ->
       syncInterval <> 1.
Proof.
  split; [vm_compute; reflexivity|].
  split; [reflexivity|]. split; [reflexivity|]. split; [reflexivity|].
  split; [simpl; tauto|].
  intros si fl H. simpl in H.
  repeat (destruct H as [H | H];
          [try discriminate; injection H as <- <-; lia|]).
  destruct H.
Qed.

(** ** The frame *)

(** C3.  In a well-formed world, when no call fails and DXGI answers with an
    index of the ring, [Render] returns, and what it has done is, in this
    order: reset the allocator of the current slot, reset the command list
    against it, barrier PRESENT to RENDER_TARGET, clear, barrier
    RENDER_TARGET to PRESENT, close, submit one list, present, signal the
    fence with the incremented counter and store that value as the
    watermark of the slot, ask the swap chain for the current index and
    store the answer whatever it is, and wait for the watermark of that
    slot, which the fence has reached when [Render] returns. *)
Theorem Render_sequence e w :
  env_ok e -> world_ok w ->
  let idx := g_CurrentBackBufferIndex (glob w) in
  let v := g_FenceValue (glob w) + 1 in
  exists w' c wm,
    Render e w = Ok tt w'
    /\ log w' =
         log w
         ++ [EvAllocatorReset idx; EvCommandListReset idx;
             EvResourceBarrier (Some idx)
               D3D12_RESOURCE_STATE_PRESENT
               D3D12_RESOURCE_STATE_RENDER_TARGET;
             EvClearRenderTargetView idx;
             EvResourceBarrier (Some idx)
               D3D12_RESOURCE_STATE_RENDER_TARGET
               D3D12_RESOURCE_STATE_PRESENT;
             EvCommandListClose; EvExecuteCommandLists 1;
             EvPresent (if g_VSync (glob w) then 1 else 0)
               (if g_TearingSupported (glob w) && negb (g_VSync (glob w))
                then DXGI_PRESENT_ALLOW_TEARING else 0);
             EvQueueSignal v;
             EvGetCurrentBackBufferIndex (sc_index e)]
         ++ wait_events c wm
    /\ g_FenceValue (glob w') = v
    /\ g_FrameFenceValues (glob w')
       = <[Z.to_nat idx := v]> (g_FrameFenceValues (glob w))
    /\ g_CurrentBackBufferIndex (glob w') = sc_index e
    /\ g_FrameFenceValues (glob w') !! Z.to_nat (sc_index e) = Some wm
    /\ wm <= fence_completed (gpu w').
Proof.
  intros [Hc He] Hw idx v.
  destruct (Render_cases e w He Hw)
    as [(g & c & wm & R & Hwm & G & V & L) | (Hn & _)]; [|contradiction].
  eexists _, c, wm. split; [exact R|]. simpl.
  repeat split; auto.
Qed.

Lemma Render_sequence_witness :
  exists w' c wm,
    Render (env_good 1 0) world_start = Ok tt w'
    /\ log w' =
         log world_start
         ++ [EvAllocatorReset 0; EvCommandListReset 0;
             EvResourceBarrier (Some 0)
               D3D12_RESOURCE_STATE_PRESENT
               D3D12_RESOURCE_STATE_RENDER_TARGET;
             EvClearRenderTargetView 0;
             EvResourceBarrier (Some 0)
               D3D12_RESOURCE_STATE_RENDER_TARGET
               D3D12_RESOURCE_STATE_PRESENT;
             EvCommandListClose; EvExecuteCommandLists 1;
             EvPresent 1 0; EvQueueSignal 1;
             EvGetCurrentBackBufferIndex 1]
         ++ wait_events c wm
    /\ g_FenceValue (glob w') = 1
    /\ g_FrameFenceValues (glob w') = [1; 0]
    /\ g_CurrentBackBufferIndex (glob w') = 1
    /\ g_FrameFenceValues (glob w') !! 1%nat = Some wm
    /\ wm <= fence_completed (gpu w').
Proof.
  apply (Render_sequence (env_good 1 0) world_start).
  - split; [constructor; simpl; intros; lia | unfold index_ok, g_NumFrames; simpl; lia].
  - constructor; simpl; try (unfold g_NumFrames, UINT64_MAX; lia);
      try reflexivity.
    repeat constructor; lia.
Defined.

(** ** Resizing *)

(** C4.  In a well-formed world, when no call fails, a [Resize] to another
    size returns, and what it has done is, in this order: signal the fence
    with the incremented counter and wait for that value, release back
    buffer 0 and back buffer 1, read the swap-chain description, resize the
    ring of [g_NumFrames] buffers to the clamped size, ask for the current
    index, and rebuild the two render-target views.  [flushed] is the world
    the flush returns in, before any buffer is released: there the fence is
    at the value signalled and nothing is pending; everything else [Resize]
    logs comes after, and none of it touches the fence. *)
Theorem Resize_order e width height w :
  env_ok e -> world_ok w ->
  g_ClientWidth (glob w) <> width \/ g_ClientHeight (glob w) <> height ->
  let v := g_FenceValue (glob w) + 1 in
  exists flushed w' c,
    Flush e
      (mkWorld
         (with_ClientHeight (Z.max 1 height)
            (with_ClientWidth (Z.max 1 width) (glob w)))
         (gpu w) (swap w) (win w) (log w))
    = Ok tt flushed
    /\ log flushed = log w ++ [EvQueueSignal v] ++ wait_events c v
    /\ fence_completed (gpu flushed) = v
    /\ fence_pending (gpu flushed) = []
    /\ Resize e width height w = Ok tt w'
    /\ log w' =
         log flushed
         ++ [EvBackBufferRelease 0; EvBackBufferRelease 1;
             EvSwapChainGetDesc;
             EvResizeBuffers g_NumFrames (Z.max 1 width) (Z.max 1 height);
             EvGetCurrentBackBufferIndex (sc_index e);
             EvGetBuffer 0; EvCreateRenderTargetView 0;
             EvGetBuffer 1; EvCreateRenderTargetView 1]
    /\ gpu w' = gpu flushed
    /\ g_CurrentBackBufferIndex (glob w') = sc_index e
    /\ g_BackBuffers (glob w') = [Some 0; Some 1].
Proof.
  intros [Hc He] Hw Hne v.
  destruct (Resize_cases e width height w He Hw Hne)
    as [(g & c & wm & R & Hwm & V & L & RF) | (Hn & _)]; [|contradiction].
  eexists _, _, c. split; [exact RF|]. simpl.
  split; [reflexivity|]. split; [exact V|]. split; [exact L|].
  split; [exact R|]. simpl. unfold resize_events.
  rewrite <- !app_assoc. simpl.
  repeat split; auto.
Qed.

Lemma Resize_order_witness :
  exists flushed w' c,
    Flush (env_good 1 0)
      (mkWorld
         (with_ClientHeight 600 (with_ClientWidth 800 (glob world_start)))
         (gpu world_start) (swap world_start) (win world_start)
         (log world_start))
    = Ok tt flushed
    /\ log flushed = log world_start ++ [EvQueueSignal 1] ++ wait_events c 1
    /\ fence_completed (gpu flushed) = 1
    /\ fence_pending (gpu flushed) = []
    /\ Resize (env_good 1 0) 800 600 world_start = Ok tt w'
    /\ log w' =
         log flushed
         ++ [EvBackBufferRelease 0; EvBackBufferRelease 1;
             EvSwapChainGetDesc;
             EvResizeBuffers g_NumFrames 800 600;
             EvGetCurrentBackBufferIndex 1;
             EvGetBuffer 0; EvCreateRenderTargetView 0;
             EvGetBuffer 1; EvCreateRenderTargetView 1]
    /\ gpu w' = gpu flushed
    /\ g_CurrentBackBufferIndex (glob w') = 1
    /\ g_BackBuffers (glob w') = [Some 0; Some 1].
Proof.
  apply (Resize_order (env_good 1 0) 800 600 world_start).
  - split; [constructor; simpl; intros; lia | unfold index_ok, g_NumFrames; simpl; lia].
  - constructor; simpl; try (unfold g_NumFrames, UINT64_MAX; lia);
      try reflexivity.
    repeat constructor; lia.
  - left. simpl. lia.
Defined.

(** C5.  A [Resize] to another size leaves [max 1 width] and [max 1 height]
    in the client dimensions however it ends, and when it returns the swap
    chain has been resized to exactly these; a request of 0 by 0 gives 1 by
    1. *)
Theorem Resize_clamps e width height w :
  g_ClientWidth (glob w) <> width \/ g_ClientHeight (glob w) <> height ->
  (forall w',
     final_world (Resize e width height w) = Some w' ->
     g_ClientWidth (glob w') = Z.max 1 width
     /\ g_ClientHeight (glob w') = Z.max 1 height)
  /\ (env_ok e -> world_ok w ->
      exists w',
        Resize e width height w = Ok tt w'
        /\ swap w' = mkSwapChain (Z.max 1 width) (Z.max 1 height)).
Proof.
  intros Hne. split.
  - intros w'. apply Resize_dimensions_any. exact Hne.
  - intros [Hc He] Hw.
    destruct (Resize_cases e width height w He Hw Hne)
      as [(g & c & wm & R & _) | (Hn & _)]; [|contradiction].
    eexists. split; [exact R | reflexivity].
Qed.

Lemma Resize_clamps_witness :
  exists w',
    Resize (env_good 0 0) 0 0 world_start = Ok tt w'
    /\ g_ClientWidth (glob w') = 1
    /\ g_ClientHeight (glob w') = 1
    /\ swap w' = mkSwapChain 1 1.
Proof.
  destruct (Resize_clamps (env_good 0 0) 0 0 world_start) as [D S].
  - left. simpl. lia.
  - destruct S as (w' & R & Hs).
    + split; [constructor; simpl; intros; lia | unfold index_ok, g_NumFrames; simpl; lia].
    + constructor; simpl; try (unfold g_NumFrames, UINT64_MAX; lia);
        try reflexivity.
      repeat constructor; lia.
    + exists w'. destruct (D w') as [Dw Dh]; [rewrite R; reflexivity|].
      repeat split; assumption.
Defined.

(** C7.  [Resize] with the stored client dimensions returns at once in the
    very same world: same globals, same fence and pending signals, same swap
    chain, and not one call added to the log. *)
Theorem Resize_current_size_noop e w :
  Resize e (g_ClientWidth (glob w)) (g_ClientHeight (glob w)) w = Ok tt w.
Proof. apply Resize_same_size; reflexivity. Qed.

(** C10.  When a [Resize] to another size returns, every slot carries the
    watermark the current slot had when the resize began; and it does
    return when no call fails. *)
Theorem Resize_levels_watermarks e width height w :
  index_ok e -> world_ok w ->
  g_ClientWidth (glob w) <> width \/ g_ClientHeight (glob w) <> height ->
  (calls_succeed e -> exists w', Resize e width height w = Ok tt w')
  /\ (forall w',
        Resize e width height w = Ok tt w' ->
        exists wm,
          g_FrameFenceValues (glob w)
            !! Z.to_nat (g_CurrentBackBufferIndex (glob w)) = Some wm
          /\ g_FrameFenceValues (glob w')
             = replicate (Z.to_nat g_NumFrames) wm).
Proof.
  intros He Hw Hne.
  destruct (Resize_cases e width height w He Hw Hne)
    as [(g & c & wm & R & Hwm & _) | (Hn & w1 & R)].
  - split; [eauto|]. intros w' HR. rewrite R in HR. injection HR as <-.
    exists wm. split; [exact Hwm | reflexivity].
  - split; [intros; contradiction|]. intros w' HR. congruence.
Qed.

Lemma Resize_levels_watermarks_witness :
  g_FrameFenceValues (glob world_after_first_frame) = [1; 0]
  /\ g_CurrentBackBufferIndex (glob world_after_first_frame) = 1
  /\ exists w',
       Resize (env_good 0 0) 800 600 world_after_first_frame = Ok tt w'
       /\ g_FrameFenceValues (glob w') = [0; 0].
Proof.
  split; [reflexivity|]. split; [reflexivity|].
  destruct (Resize_levels_watermarks (env_good 0 0) 800 600
              world_after_first_frame) as [T S].
  - unfold index_ok, g_NumFrames. simpl. lia.
  - constructor; simpl; try (unfold g_NumFrames, UINT64_MAX; lia);
      try reflexivity.
    + repeat constructor; lia.
    + unfold gpu_ok. simpl. lia.
  - left. simpl. lia.
  - destruct T as [w' R]; [constructor; simpl; intros; lia|].
    exists w'. split; [exact R|].
    destruct (S w' R) as (wm & L & E). simpl in L. injection L as <-.
    exact E.
Defined.

(** ** Full screen *)

(** C8.  [SetFullscreen] with the stored flag returns at once in the very
    same world: the flag, the saved rectangle, the style and position of the
    window are untouched and no window call is made. *)
Theorem SetFullscreen_current_state_noop e w :
  SetFullscreen e (g_Fullscreen (glob w)) w = Ok tt w.
Proof.
  unfold SetFullscreen, bind, read.
  destruct (g_Fullscreen (glob w)); reflexivity.
Qed.

(** ** The fence counter *)

(** C6.  In a well-formed world, a [Signal] whose queue call succeeds
    returns the counter plus one and leaves the counter at that value; and
    when [Render] is called for each environment of a list in turn, no call
    failing and the counter having room, the values stored as watermarks are
    the counter plus 1, plus 2, and so on, one more per frame, and the
    counter ends that many above where it began. *)
Theorem fence_values_increase e es w :
  world_ok w -> 0 <= hr_Signal e -> Forall env_ok es ->
  g_FenceValue (glob w) + Z.of_nat (length es) < UINT64_MAX ->
  (exists w',
     Signal e w = Ok (g_FenceValue (glob w) + 1) w'
     /\ g_FenceValue (glob w') = g_FenceValue (glob w) + 1)
  /\ (exists w',
        render_cycles es w
        = Ok (map (fun k => g_FenceValue (glob w) + Z.of_nat k)
                (seq 1 (length es))) w'
        /\ g_FenceValue (glob w')
           = g_FenceValue (glob w) + Z.of_nat (length es)).
Proof.
  intros Hw Hs He Hmax. split.
  - rewrite (Signal_ok _ _ Hs).
    rewrite (wrap64_small _ (ok_counter _ Hw)).
    eexists. split; reflexivity.
  - apply render_cycles_ok; assumption.
Qed.

Lemma fence_values_increase_witness :
  (exists w',
     Signal (env_good 0 0) world_start = Ok 1 w'
     /\ g_FenceValue (glob w') = 1)
  /\ (exists w',
        render_cycles
          [env_good 1 0; env_good 0 0; env_good 1 0; env_good 0 0;
           env_good 1 0] world_start
        = Ok [1; 2; 3; 4; 5] w'
        /\ g_FenceValue (glob w') = 5).
Proof.
  apply (fence_values_increase (env_good 0 0)
           [env_good 1 0; env_good 0 0; env_good 1 0; env_good 0 0;
            env_good 1 0] world_start).
  - constructor; simpl; try (unfold g_NumFrames, UINT64_MAX; lia);
      try reflexivity.
    repeat constructor; lia.
  - simpl. lia.
  - repeat constructor; simpl; intros; unfold g_NumFrames; lia.
  - unfold UINT64_MAX. simpl. lia.
Defined.

(** ** The command line *)




(** * Further properties of the program *)

(** ** Fence and waits *)

Lemma gpu_run_until_unreachable v c ps top :
  ascending_to c ps top -> top < v -> gpu_run_until v c ps = None.
Proof.
  revert c. induction ps as [|p ps IH]; simpl; intros c H Hv.
  - subst c. rewrite (proj2 (Z.leb_gt v top) Hv). reflexivity.
  - destruct H as [Hlt H]. pose proof (ascending_to_le _ _ _ H) as Hle.
    rewrite (proj2 (Z.leb_gt v c)) by lia. apply IH; assumption.
Qed.

(** X1.  When the queue refuses the signal, [Signal] throws with the
    counter already advanced and nothing queued behind the fence: the
    counter is then ahead of every value the fence will ever reach. *)
Theorem Signal_failure_advances_counter e w :
  hr_Signal e < 0 ->
  Signal e w
  = Thrown
      (mkWorld (with_FenceValue (wrap64 (g_FenceValue (glob w) + 1)) (glob w))
         (gpu w) (swap w) (win w)
         (log w ++ [EvQueueSignal (wrap64 (g_FenceValue (glob w) + 1))])).
Proof.
  intros H. unfold Signal, queue_Signal, ThrowIfFailed, bind, read, modify,
    emit, get_gpu, set_gpu, ret, throw.
  simpl. rewrite (FAILED_true _ H). simpl. rewrite (FAILED_true _ H).
  reflexivity.
Qed.

Lemma Signal_failure_advances_counter_witness :
  Signal (mkEnv 0 0 (-1) 0 0 0 (fun _ => 0) 0%nat 0%nat 0 (mkRECT 0 0 0 0))
    world_start
  = Thrown
      (mkWorld (with_FenceValue 1 (glob world_start)) (gpu world_start)
         (swap world_start) (win world_start) [EvQueueSignal 1]).
Proof.
  apply (Signal_failure_advances_counter
           (mkEnv 0 0 (-1) 0 0 0 (fun _ => 0) 0%nat 0%nat 0 (mkRECT 0 0 0 0))
           world_start).
  simpl. lia.
Defined.

(** X2.  When the fence has already reached the value, [WaitForFenceValue]
    only reads the fence: it arms no event and does not wait, whatever the
    duration, and it returns even if [SetEventOnCompletion] would fail. *)
Theorem WaitForFenceValue_reached e fenceValue duration w :
  fenceValue <= fence_completed (gpu_step (gpu_progress e) (gpu w)) ->
  WaitForFenceValue e fenceValue duration w
  = Ok tt
      (mkWorld (glob w) (gpu_step (gpu_progress e) (gpu w)) (swap w) (win w)
         (log w
            ++ [EvGetCompletedValue
                  (fence_completed (gpu_step (gpu_progress e) (gpu w)))])).
Proof.
  intros H. unfold WaitForFenceValue, fence_GetCompletedValue, bind, get_gpu,
    set_gpu, emit, ret.
  simpl. rewrite (proj2 (Z.ltb_ge _ _) H). reflexivity.
Qed.

Lemma WaitForFenceValue_reached_witness :
  WaitForFenceValue (env_good 0 0) 0 5 world_start
  = Ok tt
      (mkWorld (glob world_start) (gpu world_start) (swap world_start)
         (win world_start) [EvGetCompletedValue 0]).
Proof.
  apply (WaitForFenceValue_reached (env_good 0 0) 0 5 world_start).
  vm_compute. discriminate.
Defined.

(** X3.  Waiting without a timeout for a value above everything that was
    ever signalled never returns. *)
Theorem WaitForFenceValue_unsignalled_blocks e fenceValue w top :
  gpu_ok (gpu w) top -> top < fenceValue ->
  0 <= hr_SetEventOnCompletion e ->
  exists w', WaitForFenceValue e fenceValue milliseconds_max w = Blocked w'.
Proof.
  intros Hg Hv Hhr.
  destruct (gpu_step_ok (gpu_progress e) _ _ Hg) as [Hg1 _].
  pose proof (ascending_to_le _ _ _ Hg1) as Hle.
  unfold WaitForFenceValue, fence_GetCompletedValue, bind, get_gpu, set_gpu,
    emit, ret.
  simpl. set (g1 := gpu_step (gpu_progress e) (gpu w)) in *.
  rewrite (proj2 (Z.ltb_lt (fence_completed g1) fenceValue)) by lia.
  unfold fence_SetEventOnCompletion, ThrowIfFailed, WaitForSingleObject,
    bind, get_gpu, set_gpu, emit, ret, block. simpl.
  rewrite (FAILED_false _ Hhr). simpl. rewrite (FAILED_false _ Hhr).
  rewrite wrap32_milliseconds_max. simpl.
  rewrite (gpu_run_until_unreachable _ _ _ _ Hg1 Hv).
  eexists. reflexivity.
Qed.

Lemma WaitForFenceValue_unsignalled_blocks_witness :
  exists w',
    WaitForFenceValue (env_good 0 0) 1 milliseconds_max world_start
    = Blocked w'.
Proof.
  apply (WaitForFenceValue_unsignalled_blocks (env_good 0 0) 1 world_start 0).
  - reflexivity.
  - lia.
  - simpl. lia.
Defined.

(** X4.  A duration that is not all ones in its low 32 bits makes a wait
    that always comes back; the duration is cut to its low 32 bits on the
    way to [WaitForSingleObject].  Whether the wait timed out is not looked
    at: when the GPU makes no progress, [WaitForFenceValue] returns as
    usual with the fence still below the value. *)
Theorem WaitForFenceValue_finite_returns e fenceValue duration w :
  wrap32 duration <> INFINITE ->
  0 <= hr_SetEventOnCompletion e ->
  exists w',
    WaitForFenceValue e fenceValue duration w = Ok tt w'
    /\ glob w' = glob w
    /\ Forall
         (fun ev =>
            match ev with
            | EvWaitForSingleObject timeout => timeout = duration mod 2 ^ 32
            | _ => True
            end)
         (skipn (length (log w)) (log w'))
    /\ (gpu_progress e = 0%nat -> gpu_progress_in_wait e = 0%nat ->
        fence_completed (gpu w) < fenceValue ->
        fence_completed (gpu w') < fenceValue
        /\ In (EvWaitForSingleObject (duration mod 2 ^ 32)) (log w')).
Proof.
  intros Hd Hhr.
  unfold WaitForFenceValue, fence_GetCompletedValue, bind, get_gpu, set_gpu,
    emit, ret.
  simpl. set (g1 := gpu_step (gpu_progress e) (gpu w)) in *.
  assert (Hg1 : gpu_progress e = 0%nat ->
                fence_completed g1 = fence_completed (gpu w)
                /\ fence_pending g1 = fence_pending (gpu w)).
  { intros E. unfold g1. rewrite E. unfold gpu_step. simpl. auto. }
  destruct (fence_completed g1 <? fenceValue) eqn:Elt.
  - unfold fence_SetEventOnCompletion, ThrowIfFailed, WaitForSingleObject,
      bind, get_gpu, set_gpu, emit, ret, block. simpl.
    rewrite (FAILED_false _ Hhr). simpl. rewrite (FAILED_false _ Hhr).
    rewrite (proj2 (Z.eqb_neq _ _) Hd). simpl.
    destruct (gpu_run_upto _ _ _ _) as [c ps] eqn:Eu. simpl.
    eexists. split; [reflexivity|]. split; [reflexivity|]. simpl.
    rewrite <- !app_assoc, drop_app_length. simpl.
    split; [repeat constructor|].
    intros E1 E2 Hlt. split.
    + rewrite E2 in Eu. destruct (Hg1 E1) as [Ec _].
      simpl in Eu. destruct (fenceValue <=? fence_completed g1);
        injection Eu as <- _; lia.
    + apply in_or_app. right. simpl. auto.
  - eexists. split; [reflexivity|]. split; [reflexivity|]. simpl.
    rewrite drop_app_length. split; [repeat constructor|].
    intros E1 _ Hlt. destruct (Hg1 E1) as [Ec _].
    apply Z.ltb_ge in Elt. lia.
Qed.

Lemma WaitForFenceValue_finite_returns_witness :
  exists w',
    WaitForFenceValue (env_good 0 0) 1 (2 ^ 32) world_after_first_frame
    = Ok tt w'
    /\ fence_completed (gpu w') < 1
    /\ In (EvWaitForSingleObject 0) (log w').
Proof.
  destruct (WaitForFenceValue_finite_returns (env_good 0 0) 1 (2 ^ 32)
              world_after_first_frame)
    as (w' & R & _ & _ & H).
  - vm_compute. discriminate.
  - simpl. lia.
  - exists w'. split; [exact R|]. apply H; [reflexivity | reflexivity |].
    vm_compute. reflexivity.
Defined.

(** ** Leaving the program *)

(** X5.  The flush at the end of [wWinMain], after any messages: when no
    call fails it returns, and when it returns the fence has reached the
    counter, nothing is pending on the queue and every watermark has been
    reached, so the fence event is closed with no work in flight. *)
Theorem exit_flush_drains width height warp tearing rect index script e :
  0 <= index < g_NumFrames ->
  Forall step_index_ok script ->
  Z.of_nat (length script) + 1 < UINT64_MAX ->
  (Forall step_succeeds script -> calls_succeed e ->
   exists w',
     wWinMain_loop script e (startup width height warp tearing rect index)
     = Ok tt w')
  /\ (forall w',
        wWinMain_loop script e (startup width height warp tearing rect index)
        = Ok tt w' ->
        fence_completed (gpu w') = g_FenceValue (glob w')
        /\ fence_pending (gpu w') = []
        /\ Forall (fun v => v <= fence_completed (gpu w'))
             (g_FrameFenceValues (glob w'))).
Proof.
  intros Hi Hs Hlen.
  destruct (startup_ok width height warp tearing rect index Hi) as [Hw Hr].
  assert (Hflush : forall w1,
            run script (startup width height warp tearing rect index)
            = Ok tt w1 ->
            world_ok w1
            /\ ((exists g c,
                   Flush e w1
                   = Ok tt
                       (mkWorld
                          (with_FenceValue (g_FenceValue (glob w1) + 1)
                             (glob w1))
                          g (swap w1) (win w1)
                          (log w1 ++ EvQueueSignal (g_FenceValue (glob w1) + 1)
                             :: wait_events c (g_FenceValue (glob w1) + 1)))
                   /\ gpu_ok g (g_FenceValue (glob w1) + 1)
                   /\ fence_completed g = g_FenceValue (glob w1) + 1
                   /\ fence_pending g = [])
                \/ (~ calls_succeed e
                    /\ exists w', Flush e w1 = Thrown w'))).
  { intros w1 R.
    destruct (run_preserves script _ w1 Hs Hw Hr) as (Hw1 & _ & Hfv);
      [simpl; lia | exact R |].
    split; [exact Hw1|]. simpl in Hfv.
    apply Flush_cases; [|apply Hw1].
    destruct Hw1. lia. }
  unfold wWinMain_loop, bind. split.
  - intros Hc He.
    destruct (run_total script _ Hs Hc Hw Hr) as [w1 R]; [simpl; lia|].
    rewrite R.
    destruct (Hflush w1 R) as [_ [(g & c & F & _) | (Hn & _)]];
      [eauto | contradiction].
  - intros w'.
    destruct (run script (startup width height warp tearing rect index))
      as [[] w1| | |] eqn:R; try discriminate.
    destruct (Hflush w1 eq_refl)
      as [Hw1 [(g & c & F & G & V & P) | (_ & w2 & F)]];
      rewrite F; [|discriminate].
    intros [= <-]. simpl. split; [exact V|]. split; [exact P|].
    rewrite V. eapply Forall_impl; [apply Hw1|]. simpl. intros. lia.
Qed.

Lemma exit_flush_drains_witness :
  exists w',
    wWinMain_loop script_frames (env_good 0 0)
      (startup 1280 720 false false (mkRECT 100 100 1380 820) 0)
    = Ok tt w'.
Proof.
  refine (proj1 (exit_flush_drains 1280 720 false false
                   (mkRECT 100 100 1380 820) 0 script_frames (env_good 0 0)
                   _ _ _) _ _).
  - unfold g_NumFrames. lia.
  - repeat constructor; unfold index_ok, g_NumFrames; simpl; lia.
  - vm_compute. reflexivity.
  - repeat constructor; simpl; intros; lia.
  - constructor; simpl; intros; lia.
Defined.

(** ** What every run logs *)

Lemma upto_succ n : 0 <= n -> upto (n + 1) = upto n ++ [n + 1].
Proof.
  intros H. unfold upto.
  replace (Z.to_nat (n + 1)) with (S (Z.to_nat n)) by lia.
  rewrite seq_S, map_app. simpl. do 2 f_equal. lia.
Qed.

Lemma signalled_app l1 l2 : signalled (l1 ++ l2) = signalled l1 ++ signalled l2.
Proof. unfold signalled. apply omap_app. Qed.

Lemma signalled_wait_events c v : signalled (wait_events c v) = [].
Proof. unfold wait_events. destruct (c <? v); reflexivity. Qed.

Lemma signalled_not_signal evs : Forall not_signal evs -> signalled evs = [].
Proof.
  induction 1 as [|ev evs H _ IH]; [reflexivity|].
  unfold signalled in *. destruct ev; simpl in *; try exact IH.
  contradiction.
Qed.

Lemma SetFullscreen_stable e fullscreen (I : Globals -> Prop)
    (P : Event -> Prop) :
  (forall g b, I g -> I (with_Fullscreen b g)) ->
  (forall g r, I g -> I (with_WindowRect r g)) ->
  (forall ev, not_signal ev -> (forall s f, ev <> EvPresent s f) -> P ev) ->
  stable I P (SetFullscreen e fullscreen).
Proof.
  intros H1 H2 HP. unfold SetFullscreen.
  stable_auto; auto; apply HP; simpl; auto; discriminate.
Qed.

Lemma on_key_stable e wParam alt (I : Globals -> Prop) (P : Event -> Prop) :
  (forall g b, I g -> I (with_Fullscreen b g)) ->
  (forall g r, I g -> I (with_WindowRect r g)) ->
  (forall g b, I g -> I (with_VSync b g)) ->
  (forall ev, not_signal ev -> (forall s f, ev <> EvPresent s f) -> P ev) ->
  stable I P (on_key e wParam alt).
Proof.
  intros H1 H2 H3 HP. unfold on_key.
  repeat stable_step; auto; try (apply SetFullscreen_stable; auto).
  apply HP; simpl; auto; discriminate.
Qed.

Lemma CheckTearingSupport_true f :
  CheckTearingSupport f = true ->
  swapChainDesc_Flags f = DXGI_SWAP_CHAIN_FLAG_ALLOW_TEARING
  /\ 0 <= hr_CreateDXGIFactory1 f
  /\ 0 <= hr_As_Factory5 f
  /\ 0 <= hr_CheckFeatureSupport f
  /\ feature_allowTearing f = TRUE.
Proof.
  intros H. unfold swapChainDesc_Flags. rewrite H.
  unfold CheckTearingSupport, SUCCEEDED, FAILED, FALSE in H.
  destruct (Z.leb_spec 0 (hr_CreateDXGIFactory1 f)); [|discriminate].
  destruct (Z.leb_spec 0 (hr_As_Factory5 f)); [|discriminate].
  destruct (Z.ltb_spec (hr_CheckFeatureSupport f) 0); [discriminate|].
  apply Z.eqb_eq in H. auto.
Qed.

Lemma WndProc_tearing_stable f e message :
  stable (fun g => g_TearingSupported g = CheckTearingSupport f)
    (tearing_present f) (WndProc e message).
Proof.
  unfold WndProc. apply stable_bind_read. intros g0 _.
  destruct (g_IsInitialized g0); [|apply stable_emit; exact I].
  destruct message as [| wParam alt | wParam alt | | clientRect | |].
  - unfold Render. stable_auto; simpl; auto.
    match goal with
    | H : g_TearingSupported ?g = CheckTearingSupport f
      |- context [g_TearingSupported ?g] => rewrite H
    end.
    destruct (CheckTearingSupport f) eqn:E; simpl; auto.
    match goal with
    | |- context [g_VSync ?g] => destruct (g_VSync g); simpl; auto
    end.
    right. pose proof (CheckTearingSupport_true f E). tauto.
  - apply on_key_stable; simpl; auto.
    intros ev _ Hp. destruct ev; simpl; auto. destruct (Hp _ _ eq_refl).
  - apply on_key_stable; simpl; auto.
    intros ev _ Hp. destruct ev; simpl; auto. destruct (Hp _ _ eq_refl).
  - apply stable_ret.
  - unfold Resize, UpdateRenderTargetViews. stable_auto; simpl; auto.
  - apply stable_emit. exact I.
  - apply stable_emit. exact I.
Qed.

Lemma run_tearing_stable f script :
  stable (fun g => g_TearingSupported g = CheckTearingSupport f)
    (tearing_present f) (run script).
Proof.
  induction script as [|s script IH]; simpl.
  - apply stable_ret.
  - apply stable_bind; [|intros _; exact IH].
    destruct s as [e message | k]; simpl.
    + apply WndProc_tearing_stable.
    + apply stable_bind; [apply stable_get_gpu | intros g; apply stable_set_gpu].
Qed.

(** X6.  [wWinMain] stores the answer of [CheckTearingSupport] in
    [g_TearingSupported] and [CreateSwapChain] asks the same question for
    the creation flags.  Whatever messages follow and however the run
    ends, a present that carries [DXGI_PRESENT_ALLOW_TEARING] has sync
    interval 0 and goes to a swap chain created with
    [DXGI_SWAP_CHAIN_FLAG_ALLOW_TEARING], all three factory calls having
    succeeded and reported [TRUE]; every other present carries no flag. *)
Theorem tearing_only_when_supported f width height warp rect index script w' :
  final_world
    (run script
       (startup width height warp (CheckTearingSupport f) rect index))
  = Some w' ->
  Forall (tearing_present f) (log w').
Proof.
  intros H. apply (run_tearing_stable f script) in H; [|reflexivity].
  destruct H as [_ (evs & L & F)]. rewrite L. simpl. exact F.
Qed.

Lemma tearing_only_when_supported_witness :
  Forall (tearing_present factory_tearing) (log world_after_tearing).
Proof.
  apply (tearing_only_when_supported factory_tearing 1280 720 false
           (mkRECT 100 100 1380 820) 0 script_vsync_off).
  vm_compute. reflexivity.
Defined.

Lemma signalled_cons ev l :
  signalled (ev :: l)
  = match ev with
    | EvQueueSignal v => v :: signalled l
    | _ => signalled l
    end.
Proof. destruct ev; reflexivity. Qed.

Lemma WndProc_signalled e message w w' :
  index_ok e -> world_ok w ->
  signalled (log w) = upto (g_FenceValue (glob w)) ->
  WndProc e message w = Ok tt w' ->
  signalled (log w') = upto (g_FenceValue (glob w')).
Proof.
  intros He Hw Hs.
  assert (Hquiet : forall m : M unit,
            stable (fun g => g_FenceValue g = g_FenceValue (glob w))
              not_signal m ->
            m w = Ok tt w' ->
            signalled (log w') = upto (g_FenceValue (glob w'))).
  { intros m Hm R. destruct (Hm w w') as [E (evs & L & F)];
      [reflexivity | rewrite R; reflexivity |].
    rewrite L, signalled_app, (signalled_not_signal _ F), app_nil_r, E.
    exact Hs. }
  assert (Hfv : 0 <= g_FenceValue (glob w)) by (destruct Hw; lia).
  unfold WndProc, bind, read.
  destruct (g_IsInitialized (glob w)).
  2: { apply Hquiet. apply stable_emit. exact I. }
  destruct message as [| wParam alt | wParam alt | | clientRect | |].
  - intros HR.
    destruct (Render_cases e w He Hw)
      as [(g & c & wm & R & _) | (_ & w1 & R)];
      rewrite R in HR; [|discriminate].
    clear Hquiet. injection HR as <-. cbn [log glob]. cbn_world.
    rewrite signalled_app. repeat (rewrite signalled_cons; cbv iota).
    rewrite signalled_wait_events, Hs, (upto_succ _ Hfv). reflexivity.
  - apply Hquiet. apply on_key_stable; simpl; auto.
  - apply Hquiet. apply on_key_stable; simpl; auto.
  - apply Hquiet. apply stable_ret.
  - intros HR.
    destruct (size_cases w
                (wrap32 (right clientRect - left clientRect))
                (wrap32 (bottom clientRect - top clientRect)))
      as [[H1 H2] | Hne].
    { rewrite (Resize_same_size _ _ _ _ H1 H2) in HR. injection HR as <-.
      exact Hs. }
    destruct (Resize_cases e _ _ w He Hw Hne)
      as [(g & c & wm & R & _) | (_ & w1 & R)];
      rewrite R in HR; [|discriminate].
    clear Hquiet. injection HR as <-. cbn [log glob]. cbn_world.
    unfold resize_events.
    rewrite signalled_app, signalled_cons, signalled_app.
    rewrite signalled_wait_events, Hs, (upto_succ _ Hfv). reflexivity.
  - apply Hquiet. apply stable_emit. exact I.
  - apply Hquiet. apply stable_emit. exact I.
Qed.

Lemma run_signalled script :
  forall w w',
    Forall step_index_ok script -> world_ok w -> reset_safe w ->
    g_FenceValue (glob w) + Z.of_nat (length script) < UINT64_MAX ->
    signalled (log w) = upto (g_FenceValue (glob w)) ->
    run script w = Ok tt w' ->
    signalled (log w') = upto (g_FenceValue (glob w')).
Proof.
  induction script as [|s script IH]; intros w w' Hi Hw Hr Hmax Hs.
  - simpl. intros [= <-]. exact Hs.
  - apply Forall_cons in Hi as [Hi1 Hi2].
    simpl run. unfold bind. destruct (step s w) as [[] w1| | |] eqn:E;
      try discriminate.
    intros HR. simpl length in *.
    destruct (step_preserves s w w1 Hi1 Hw Hr) as (A & B & C); [lia | exact E |].
    apply (IH w1 w' Hi2 A B); [lia | | exact HR].
    destruct s as [e message | k]; simpl in E.
    + apply (WndProc_signalled e message w w1); assumption.
    + injection E as <-. exact Hs.
Qed.

(** X7.  From start-up on, whatever messages are dispatched and however
    the GPU advances in between, the values handed to the queue's [Signal]
    are 1, 2, 3, ... without a gap or a repetition, and the counter is the
    last of them: frames and resizes draw from one sequence. *)
Theorem signals_count_up width height warp tearing rect index script w' :
  0 <= index < g_NumFrames ->
  Forall step_index_ok script ->
  Z.of_nat (length script) < UINT64_MAX ->
  run script (startup width height warp tearing rect index) = Ok tt w' ->
  signalled (log w') = upto (g_FenceValue (glob w')).
Proof.
  intros Hi Hs Hlen HR.
  destruct (startup_ok width height warp tearing rect index Hi) as [Hw Hr].
  apply (run_signalled script _ w' Hs Hw Hr); [simpl; lia | reflexivity | exact HR].
Qed.

Lemma signals_count_up_witness :
  exists w',
    run script_frames (startup 1280 720 false false (mkRECT 100 100 1380 820) 0)
    = Ok tt w'
    /\ signalled (log w') = upto (g_FenceValue (glob w'))
    /\ g_FenceValue (glob w') = 4.
Proof.
  eexists. split; [vm_compute; reflexivity|]. split; [|reflexivity].
  apply (signals_count_up 1280 720 false false (mkRECT 100 100 1380 820) 0
           script_frames).
  - unfold g_NumFrames. lia.
  - repeat constructor; unfold index_ok, g_NumFrames; simpl; lia.
  - vm_compute. reflexivity.
  - vm_compute. reflexivity.
Defined.

(** ** Window messages *)

(** X8.  Until [wWinMain] has set [g_IsInitialized], every message,
    a paint, a resize or a key included, goes to [DefWindowProcW] and
    nothing else happens. *)
Theorem WndProc_before_initialisation e message w :
  g_IsInitialized (glob w) = false ->
  WndProc e message w
  = Ok tt
      (mkWorld (glob w) (gpu w) (swap w) (win w) (log w ++ [EvDefWindowProc])).
Proof.
  intros H. unfold WndProc, bind, read. rewrite H. reflexivity.
Qed.

Lemma WndProc_before_initialisation_witness :
  WndProc (env_good 0 0) WM_PAINT
    (mkWorld initial_globals (mkGpu 0 [] None) (mkSwapChain 0 0)
       (mkWindow (mkRECT 0 0 0 0) 0 0) [])
  = Ok tt
      (mkWorld initial_globals (mkGpu 0 [] None) (mkSwapChain 0 0)
         (mkWindow (mkRECT 0 0 0 0) 0 0) [EvDefWindowProc]).
Proof.
  apply (WndProc_before_initialisation (env_good 0 0) WM_PAINT
           (mkWorld initial_globals (mkGpu 0 [] None) (mkSwapChain 0 0)
              (mkWindow (mkRECT 0 0 0 0) 0 0) [])).
  reflexivity.
Defined.

(** X9.  The messages handled in place: a key other than F11 and
    Alt+Enter, [WM_SYSCHAR] and [WM_DESTROY].  In their branches [WndProc]
    calls neither [SetFullscreen] nor [DefWindowProcW], so no message is
    sent while they are handled.  They always return, and they leave alone
    everything rendering depends on (the back-buffer index and the
    buffers, the fence counter, the watermarks, the fence and the queue,
    the swap chain, the client size) and the window; the only global that
    can change is [g_VSync]. *)
Theorem WndProc_input_keeps_render_state e message w :
  g_IsInitialized (glob w) = true ->
  handled_in_place message ->
  exists w', WndProc e message w = Ok tt w'
             /\ render_state w' = render_state w
             /\ win w' = win w
             /\ (glob w' = glob w
                 \/ glob w' = with_VSync (negb (g_VSync (glob w))) (glob w)).
Proof.
  intros Hi Hm. unfold WndProc, bind, read. rewrite Hi.
  assert (Hkey : forall wParam alt,
            wParam <> VK_F11 /\ (wParam = VK_RETURN -> alt = false) ->
            exists w', on_key e wParam alt w = Ok tt w'
                       /\ render_state w' = render_state w
                       /\ win w' = win w
                       /\ (glob w' = glob w
                           \/ glob w'
                              = with_VSync (negb (g_VSync (glob w))) (glob w))).
  { intros wParam alt [H11 Hret]. unfold on_key.
    destruct (Z.eqb_spec wParam VK_V).
    { eexists. split; [reflexivity|]. simpl. auto. }
    destruct (Z.eqb_spec wParam VK_ESCAPE).
    { eexists. split; [reflexivity|]. simpl.
      destruct w as [[] ? ? ? ?]. auto. }
    destruct (Z.eqb_spec wParam VK_RETURN) as [Er | _].
    { rewrite (Hret Er). eexists. split; [reflexivity|]. auto. }
    destruct (Z.eqb_spec wParam VK_F11); [contradiction|].
    eexists. split; [reflexivity|]. auto. }
  destruct message as [| wParam alt | wParam alt | | clientRect | |];
    simpl in Hm; try contradiction.
  - apply Hkey. exact Hm.
  - apply Hkey. exact Hm.
  - eexists. split; [reflexivity|]. auto.
  - eexists. split; [reflexivity|]. simpl. destruct w as [[] ? ? ? ?]. auto.
Qed.

Lemma WndProc_input_keeps_render_state_witness :
  exists w', WndProc (env_good 0 0) (WM_KEYDOWN VK_ESCAPE false)
               world_after_first_frame = Ok tt w'
             /\ render_state w' = render_state world_after_first_frame
             /\ win w' = win world_after_first_frame
             /\ (glob w' = glob world_after_first_frame
                 \/ glob w'
                    = with_VSync (negb (g_VSync (glob world_after_first_frame)))
                        (glob world_after_first_frame)).
Proof.
  apply (WndProc_input_keeps_render_state (env_good 0 0)
           (WM_KEYDOWN VK_ESCAPE false) world_after_first_frame).
  - reflexivity.
  - simpl. split; [discriminate|]. intros H. discriminate H.
Defined.

(** X10.  The V key is its own inverse.  One press flips [g_VSync] and
    changes no other global, nor the fence, the swap chain or the window;
    a second press brings every one of them back to what it was.  (The
    handler also asks [GetAsyncKeyState] for the Alt key, as for every key;
    that query changes nothing and is not among the recorded events.) *)
Theorem VSync_key_twice e1 e2 alt1 alt2 w :
  g_IsInitialized (glob w) = true ->
  exists w1 w2,
    WndProc e1 (WM_KEYDOWN VK_V alt1) w = Ok tt w1
    /\ glob w1 = with_VSync (negb (g_VSync (glob w))) (glob w)
    /\ gpu w1 = gpu w /\ swap w1 = swap w /\ win w1 = win w
    /\ WndProc e2 (WM_KEYDOWN VK_V alt2) w1 = Ok tt w2
    /\ glob w2 = glob w
    /\ gpu w2 = gpu w /\ swap w2 = swap w /\ win w2 = win w.
Proof.
  intros H. unfold WndProc, on_key, bind, read, modify. rewrite H. simpl.
  eexists. eexists. split; [reflexivity|]. simpl. rewrite H. simpl.
  repeat (split; [reflexivity|]).
  rewrite negb_involutive. destruct w as [[] ? ? ? ?]. simpl. auto.
Qed.

Lemma VSync_key_twice_witness :
  exists w1 w2,
    WndProc (env_good 0 0) (WM_KEYDOWN VK_V false) world_start = Ok tt w1
    /\ glob w1
       = with_VSync (negb (g_VSync (glob world_start))) (glob world_start)
    /\ gpu w1 = gpu world_start /\ swap w1 = swap world_start
    /\ win w1 = win world_start
    /\ WndProc (env_good 1 0) (WM_KEYDOWN VK_V true) w1 = Ok tt w2
    /\ glob w2 = glob world_start
    /\ gpu w2 = gpu world_start /\ swap w2 = swap world_start
    /\ win w2 = win world_start.
Proof.
  apply (VSync_key_twice (env_good 0 0) (env_good 1 0) false true world_start).
  reflexivity.
Defined.

(** ** Full screen *)

(** X11.  Entering full screen from a window: the window rectangle is
    fetched and saved in [g_WindowRect] before anything is changed; the
    style loses the caption, the system menu, the sizing frame and both
    boxes; the window is put at the top over exactly the monitor's
    rectangle and shown maximised. *)
Theorem SetFullscreen_enter e w :
  g_Fullscreen (glob w) = false ->
  exists w',
    SetFullscreen e true w = Ok tt w'
    /\ g_Fullscreen (glob w') = true
    /\ g_WindowRect (glob w') = win_rect (win w)
    /\ Z.land (win_style (win w')) frame_bits = 0
    /\ left (win_rect (win w')) = left (monitor e)
    /\ top (win_rect (win w')) = top (monitor e)
    /\ right (win_rect (win w')) = right (monitor e)
    /\ bottom (win_rect (win w')) = bottom (monitor e)
    /\ win_show (win w') = SW_MAXIMIZE
    /\ log w'
       = log w
         ++ [EvGetWindowRect;
             EvSetWindowLong 0;
             EvMonitorFromWindow; EvGetMonitorInfo;
             EvSetWindowPos HWND_TOP (left (monitor e)) (top (monitor e))
               (right (monitor e) - left (monitor e))
               (bottom (monitor e) - top (monitor e))
               (Z.lor SWP_FRAMECHANGED SWP_NOACTIVATE);
             EvShowWindow SW_MAXIMIZE].
Proof.
  intros H.
  unfold SetFullscreen, bind, read, modify, GetWindowRect, SetWindowLongW,
    SetWindowPos, ShowWindow, emit, get_win, set_win, ret.
  rewrite H. simpl. eexists. split; [reflexivity|]. simpl.
  rewrite <- !app_assoc. simpl.
  repeat split; try reflexivity; lia.
Qed.

Lemma SetFullscreen_enter_witness :
  exists w',
    SetFullscreen (env_good 0 0) true world_start = Ok tt w'
    /\ g_Fullscreen (glob w') = true
    /\ g_WindowRect (glob w') = win_rect (win world_start)
    /\ Z.land (win_style (win w')) frame_bits = 0
    /\ left (win_rect (win w')) = left (monitor (env_good 0 0))
    /\ top (win_rect (win w')) = top (monitor (env_good 0 0))
    /\ right (win_rect (win w')) = right (monitor (env_good 0 0))
    /\ bottom (win_rect (win w')) = bottom (monitor (env_good 0 0))
    /\ win_show (win w') = SW_MAXIMIZE
    /\ log w'
       = log world_start
         ++ [EvGetWindowRect;
             EvSetWindowLong 0;
             EvMonitorFromWindow; EvGetMonitorInfo;
             EvSetWindowPos HWND_TOP (left (monitor (env_good 0 0)))
               (top (monitor (env_good 0 0)))
               (right (monitor (env_good 0 0)) - left (monitor (env_good 0 0)))
               (bottom (monitor (env_good 0 0)) - top (monitor (env_good 0 0)))
               (Z.lor SWP_FRAMECHANGED SWP_NOACTIVATE);
             EvShowWindow SW_MAXIMIZE].
Proof.
  apply (SetFullscreen_enter (env_good 0 0) world_start). reflexivity.
Defined.

(** X12.  Full screen and back: leaving full screen puts the window back
    on the rectangle it had when full screen was entered, whatever the
    monitor, with the overlapped-window style and shown normally; the
    saved rectangle is still that rectangle. *)
Theorem SetFullscreen_round_trip e1 e2 w :
  g_Fullscreen (glob w) = false ->
  exists w1 w2,
    SetFullscreen e1 true w = Ok tt w1
    /\ SetFullscreen e2 false w1 = Ok tt w2
    /\ win_rect (win w2) = win_rect (win w)
    /\ win_style (win w2) = WS_OVERLAPPEDWINDOW
    /\ win_show (win w2) = SW_NORMAL
    /\ g_Fullscreen (glob w2) = false
    /\ g_WindowRect (glob w2) = win_rect (win w).
Proof.
  intros H.
  unfold SetFullscreen, bind, read, modify, GetWindowRect, SetWindowLongW,
    SetWindowPos, ShowWindow, emit, get_win, set_win, ret.
  rewrite H. simpl. eexists. eexists. split; [reflexivity|]. simpl.
  split; [reflexivity|]. simpl.
  repeat split; try reflexivity.
  destruct (win_rect (win w)) as [l t r b]. simpl. f_equal; lia.
Qed.

Lemma SetFullscreen_round_trip_witness :
  exists w1 w2,
    SetFullscreen (env_good 0 0) true world_start = Ok tt w1
    /\ SetFullscreen (env_good 0 0) false w1 = Ok tt w2
    /\ win_rect (win w2) = win_rect (win world_start)
    /\ win_style (win w2) = WS_OVERLAPPEDWINDOW
    /\ win_show (win w2) = SW_NORMAL
    /\ g_Fullscreen (glob w2) = false
    /\ g_WindowRect (glob w2) = win_rect (win world_start).
Proof.
  apply (SetFullscreen_round_trip (env_good 0 0) (env_good 0 0) world_start).
  reflexivity.
Defined.

(** X13.  The keys of full screen: F11, with or without Alt, and Enter
    with Alt do the same thing, as key or as system key, and that is to
    switch [g_Fullscreen] over; Enter without Alt does nothing at all. *)
Theorem fullscreen_keys e alt w :
  g_IsInitialized (glob w) = true ->
  WndProc e (WM_KEYDOWN VK_F11 alt) w = WndProc e (WM_KEYDOWN VK_RETURN true) w
  /\ WndProc e (WM_SYSKEYDOWN VK_RETURN true) w
     = WndProc e (WM_KEYDOWN VK_RETURN true) w
  /\ WndProc e (WM_KEYDOWN VK_RETURN false) w = Ok tt w
  /\ WndProc e (WM_SYSKEYDOWN VK_RETURN false) w = Ok tt w
  /\ exists w',
       WndProc e (WM_KEYDOWN VK_RETURN true) w = Ok tt w'
       /\ g_Fullscreen (glob w') = negb (g_Fullscreen (glob w)).
Proof.
  intros H. unfold WndProc, bind, read. rewrite H.
  split; [reflexivity|]. split; [reflexivity|].
  split; [reflexivity|]. split; [reflexivity|].
  unfold on_key. simpl.
  unfold SetFullscreen, bind, read, modify, GetWindowRect, SetWindowLongW,
    SetWindowPos, ShowWindow, emit, get_win, set_win, ret.
  simpl. destruct (g_Fullscreen (glob w)); simpl;
    eexists; split; reflexivity.
Qed.

Lemma fullscreen_keys_witness :
  exists w',
    WndProc (env_good 0 0) (WM_KEYDOWN VK_RETURN true) world_start = Ok tt w'
    /\ g_Fullscreen (glob w') = negb (g_Fullscreen (glob world_start)).
Proof.
  apply (fullscreen_keys (env_good 0 0) false world_start). reflexivity.
Defined.

(** ** Calls that fail *)

Lemma bind_eq_Thrown {A B} (m : M A) (k : A -> M B) w w1 :
  m w = Thrown w1 -> bind m k w = Thrown w1.
Proof. intros E. unfold bind. rewrite E. reflexivity. Qed.

Lemma bind_assoc_eq {A B C} (m : M A) (f : A -> M B) (k : B -> M C) w :
  bind (bind m f) k w = bind m (fun a => bind (f a) k) w.
Proof. unfold bind. destruct (m w); reflexivity. Qed.

(** One step of a call that returns, in an equation. *)
Ltac eq_step :=
  rewrite ?bind_assoc_eq; erewrite bind_eq_Ok by reflexivity; cbn_world.

Ltac eq_hr_ok H :=
  rewrite ?bind_assoc_eq;
  erewrite bind_eq_Ok by (apply ThrowIfFailed_Ok; exact H); cbn_world.

Ltac eq_hr_thrown H :=
  rewrite ?bind_assoc_eq;
  erewrite bind_eq_Thrown by (apply ThrowIfFailed_Thrown; exact H).

(** X14.  A frame that fails on the way.  If closing the command list
    fails, [Render] throws before anything is executed or presented.  If
    [Present] fails, it throws after the command list has been handed to
    the queue and before the fence is signalled: work is in flight that no
    fence value covers, while the counter, the watermarks and the index are
    as before. *)
Theorem Render_failure e w :
  world_ok w ->
  (hr_Close e < 0 ->
   Render e w
   = Thrown
       (mkWorld (glob w) (gpu w) (swap w) (win w)
          (log w
             ++ [EvAllocatorReset (g_CurrentBackBufferIndex (glob w));
                 EvCommandListReset (g_CurrentBackBufferIndex (glob w));
                 EvResourceBarrier
                   (Some (g_CurrentBackBufferIndex (glob w)))
                   D3D12_RESOURCE_STATE_PRESENT
                   D3D12_RESOURCE_STATE_RENDER_TARGET;
                 EvClearRenderTargetView (g_CurrentBackBufferIndex (glob w));
                 EvResourceBarrier
                   (Some (g_CurrentBackBufferIndex (glob w)))
                   D3D12_RESOURCE_STATE_RENDER_TARGET
                   D3D12_RESOURCE_STATE_PRESENT;
                 EvCommandListClose])))
  /\ (0 <= hr_Close e -> hr_Present e < 0 ->
      Render e w
      = Thrown
          (mkWorld (glob w) (gpu w) (swap w) (win w)
             (log w
                ++ [EvAllocatorReset (g_CurrentBackBufferIndex (glob w));
                    EvCommandListReset (g_CurrentBackBufferIndex (glob w));
                    EvResourceBarrier
                      (Some (g_CurrentBackBufferIndex (glob w)))
                      D3D12_RESOURCE_STATE_PRESENT
                      D3D12_RESOURCE_STATE_RENDER_TARGET;
                    EvClearRenderTargetView
                      (g_CurrentBackBufferIndex (glob w));
                    EvResourceBarrier
                      (Some (g_CurrentBackBufferIndex (glob w)))
                      D3D12_RESOURCE_STATE_RENDER_TARGET
                      D3D12_RESOURCE_STATE_PRESENT;
                    EvCommandListClose; EvExecuteCommandLists 1;
                    EvPresent (if g_VSync (glob w) then 1 else 0)
                      (if g_TearingSupported (glob w)
                          && negb (g_VSync (glob w))
                       then DXGI_PRESENT_ALLOW_TEARING else 0)]))).
Proof.
  intros Hw. destruct Hw.
  destruct w as [gl gp sw wi lg]. simpl in *.
  destruct gl as [warp cw ch ini wr bbs idx fv ffv vs ts fs]. simpl in *.
  subst bbs. unfold Render.
  destruct (index_cases _ ok_index0) as [-> | ->].
  all: split; [intros Hc | intros Hc Hp].
  all: do 10 eq_step.
  1, 3: eq_hr_thrown Hc; rewrite <- !app_assoc; reflexivity.
  all: eq_hr_ok Hc.
  all: do 4 eq_step.
  all: eq_hr_thrown Hp; rewrite <- !app_assoc; reflexivity.
Qed.

Lemma Render_failure_witness :
  Render (mkEnv 0 (-1) 0 0 0 0 (fun _ => 0) 0%nat 0%nat 1 (mkRECT 0 0 0 0))
    world_start
  = Thrown
      (mkWorld (glob world_start) (gpu world_start) (swap world_start)
         (win world_start)
         [EvAllocatorReset 0; EvCommandListReset 0;
          EvResourceBarrier (Some 0) D3D12_RESOURCE_STATE_PRESENT
            D3D12_RESOURCE_STATE_RENDER_TARGET;
          EvClearRenderTargetView 0;
          EvResourceBarrier (Some 0) D3D12_RESOURCE_STATE_RENDER_TARGET
            D3D12_RESOURCE_STATE_PRESENT;
          EvCommandListClose; EvExecuteCommandLists 1; EvPresent 1 0]).
Proof.
  refine (proj2 (Render_failure
                   (mkEnv 0 (-1) 0 0 0 0 (fun _ => 0) 0%nat 0%nat 1
                      (mkRECT 0 0 0 0))
                   world_start _) _ _).
  - apply startup_ok. unfold g_NumFrames. lia.
  - simpl. lia.
  - simpl. lia.
Defined.

(** X15.  [UpdateRenderTargetViews] on the two slots: when both buffers
    can be fetched it stores buffer 0 and buffer 1 and creates a view for
    each, in this order; when the second cannot be fetched it throws with
    the first already stored and the second slot as it was; when the first
    cannot be fetched it throws with no slot changed. *)
Theorem UpdateRenderTargetViews_slots e w b0 b1 :
  g_BackBuffers (glob w) = [b0; b1] ->
  (0 <= hr_GetBuffer e 0 -> 0 <= hr_GetBuffer e 1 ->
   UpdateRenderTargetViews e w
   = Ok tt
       (mkWorld (with_BackBuffers [Some 0; Some 1] (glob w)) (gpu w) (swap w)
          (win w)
          (log w
             ++ [EvGetBuffer 0; EvCreateRenderTargetView 0;
                 EvGetBuffer 1; EvCreateRenderTargetView 1])))
  /\ (0 <= hr_GetBuffer e 0 -> hr_GetBuffer e 1 < 0 ->
      UpdateRenderTargetViews e w
      = Thrown
          (mkWorld (with_BackBuffers [Some 0; b1] (glob w)) (gpu w) (swap w)
             (win w)
             (log w
                ++ [EvGetBuffer 0; EvCreateRenderTargetView 0;
                    EvGetBuffer 1])))
  /\ (hr_GetBuffer e 0 < 0 ->
      UpdateRenderTargetViews e w
      = Thrown
          (mkWorld (glob w) (gpu w) (swap w) (win w)
             (log w ++ [EvGetBuffer 0]))).
Proof.
  intros Hb.
  destruct w as [gl gp sw wi lg]. simpl in *.
  destruct gl as [warp cw ch ini wr bbs idx fv ffv vs ts fs]. simpl in *.
  subst bbs. unfold UpdateRenderTargetViews.
  rewrite indices_NumFrames. cbn [for_each].
  split; [intros H0 H1 | split; [intros H0 H1 | intros H0]].
  - eq_step. eq_hr_ok H0. do 4 eq_step.
    eq_step. eq_hr_ok H1. do 4 eq_step.
    unfold ret. rewrite <- !app_assoc. reflexivity.
  - eq_step. eq_hr_ok H0. do 4 eq_step.
    eq_step. eq_hr_thrown H1. rewrite <- !app_assoc. reflexivity.
  - eq_step. eq_hr_thrown H0. reflexivity.
Qed.

Lemma UpdateRenderTargetViews_slots_witness :
  UpdateRenderTargetViews
    (mkEnv 0 0 0 0 0 0 (fun i => if i =? 1 then -1 else 0) 0%nat 0%nat 0
       (mkRECT 0 0 0 0))
    (mkWorld (with_BackBuffers [None; None] (glob world_start))
       (gpu world_start) (swap world_start) (win world_start) [])
  = Thrown
      (mkWorld (with_BackBuffers [Some 0; None] (glob world_start))
         (gpu world_start) (swap world_start) (win world_start)
         [EvGetBuffer 0; EvCreateRenderTargetView 0; EvGetBuffer 1]).
Proof.
  refine (proj1 (proj2 (UpdateRenderTargetViews_slots
                   (mkEnv 0 0 0 0 0 0 (fun i => if i =? 1 then -1 else 0)
                      0%nat 0%nat 0 (mkRECT 0 0 0 0))
                   (mkWorld (with_BackBuffers [None; None] (glob world_start))
                      (gpu world_start) (swap world_start) (win world_start)
                      [])
                   None None _)) _ _).
  - reflexivity.
  - simpl. lia.
  - simpl. lia.
Defined.

(** ** The window at start-up *)

(** X16.  Where [CreateWindow] puts the window.  The corner is never left
    of or above the screen's origin.  A window that fits on the screen lies
    inside it with margins that differ by at most one pixel, the odd pixel
    going to the right and to the bottom; one that does not fit starts at
    0.  The size is the one of the rectangle [AdjustWindowRect] made of the
    client size. *)
Theorem CreateWindow_centred s width height x y cx cy :
  CreateWindow s width height = Some (x, y, cx, cy) ->
  0 <= x /\ 0 <= y
  /\ (cx <= SM_CXSCREEN s ->
      x + cx <= SM_CXSCREEN s /\ 0 <= SM_CXSCREEN s - (x + cx) - x <= 1)
  /\ (SM_CXSCREEN s <= cx -> x = 0)
  /\ (cy <= SM_CYSCREEN s ->
      y + cy <= SM_CYSCREEN s /\ 0 <= SM_CYSCREEN s - (y + cy) - y <= 1)
  /\ (SM_CYSCREEN s <= cy -> y = 0)
  /\ cx = (let r := AdjustWindowRect s
                      (mkRECT 0 0 (to_LONG width) (to_LONG height))
                      WS_OVERLAPPEDWINDOW in
           right r - left r)
  /\ cy = (let r := AdjustWindowRect s
                      (mkRECT 0 0 (to_LONG width) (to_LONG height))
                      WS_OVERLAPPEDWINDOW in
           bottom r - top r).
Proof.
  unfold CreateWindow, int_sub.
  set (r := AdjustWindowRect s _ _).
  destruct (in_int (right r - left r)); simpl; [|discriminate].
  destruct (in_int (bottom r - top r)); simpl; [|discriminate].
  destruct (in_int (SM_CXSCREEN s - (right r - left r))); simpl;
    [|discriminate].
  destruct (in_int (SM_CYSCREEN s - (bottom r - top r))); simpl;
    [|discriminate].
  intros [= <- <- <- <-].
  set (dx := SM_CXSCREEN s - (right r - left r)).
  set (dy := SM_CYSCREEN s - (bottom r - top r)).
  repeat split; try reflexivity; Z.to_euclidean_division_equations; lia.
Qed.

Lemma CreateWindow_centred_witness :
  CreateWindow screen_sample 1280 720 = Some (312, 160, 1296, 759)
  /\ 312 + 1296 <= SM_CXSCREEN screen_sample.
Proof.
  split; [reflexivity|].
  refine (proj1 (proj1 (proj2 (proj2
            (CreateWindow_centred screen_sample 1280 720 312 160 1296 759
               _))) _)).
  - reflexivity.
  - simpl. lia.
Defined.

(** ** The adapter *)

Lemma hardware_adapter_rejected desc maxMem :
  (Z.land (Flags desc) DXGI_ADAPTER_FLAG_SOFTWARE =? 0)
  && device_creatable desc
  && (maxMem <? DedicatedVideoMemory desc) = false ->
  hardware_adapter desc -> DedicatedVideoMemory desc <= maxMem.
Proof.
  intros E [H1 H2]. rewrite H1, H2 in E. simpl in E.
  apply Z.ltb_ge in E. exact E.
Qed.

Lemma GetAdapter_loop_max adapters :
  forall i maxMem chosen,
    (GetAdapter_loop i adapters maxMem chosen = chosen
     /\ forall k d, adapters !! k = Some d -> hardware_adapter d ->
                    DedicatedVideoMemory d <= maxMem)
    \/ exists j desc,
         GetAdapter_loop i adapters maxMem chosen = EnumeratedAdapter (i + j)
         /\ adapters !! j = Some desc /\ hardware_adapter desc
         /\ maxMem < DedicatedVideoMemory desc
         /\ forall k d, adapters !! k = Some d -> hardware_adapter d ->
              DedicatedVideoMemory d <= DedicatedVideoMemory desc
              /\ ((k < j)%nat ->
                  DedicatedVideoMemory d < DedicatedVideoMemory desc).
Proof.
  induction adapters as [|desc rest IH]; intros i maxMem chosen; simpl.
  - left. split; [reflexivity|]. intros k d [=].
  - destruct ((Z.land (Flags desc) DXGI_ADAPTER_FLAG_SOFTWARE =? 0)
              && device_creatable desc
              && (maxMem <? DedicatedVideoMemory desc)) eqn:E.
    + apply andb_prop in E as [E E3]. apply andb_prop in E as [E1 E2].
      apply Z.eqb_eq in E1. apply Z.ltb_lt in E3.
      destruct (IH (S i) (DedicatedVideoMemory desc) (EnumeratedAdapter i))
        as [[-> Hall] | (j & d & -> & L & H & Hlt & Hall)].
      * right. exists 0%nat, desc. rewrite Nat.add_0_r.
        split; [reflexivity|]. split; [reflexivity|].
        split; [split; assumption|]. split; [exact E3|].
        intros [|k] d' Hk Hd; simpl in Hk.
        -- injection Hk as <-. split; [lia|]. intros; lia.
        -- split; [eapply Hall; eassumption|]. intros; lia.
      * right. exists (S j), d. rewrite Nat.add_succ_r.
        split; [reflexivity|]. split; [exact L|]. split; [exact H|].
        split; [lia|].
        intros [|k] d' Hk Hd; simpl in Hk.
        -- injection Hk as <-. split; intros; lia.
        -- destruct (Hall k d' Hk Hd) as [A B].
           split; [exact A|]. intros; apply B; lia.
    + destruct (IH (S i) maxMem chosen)
        as [[-> Hall] | (j & d & -> & L & H & Hlt & Hall)].
      * left. split; [reflexivity|].
        intros [|k] d' Hk Hd; simpl in Hk.
        -- injection Hk as <-. eapply hardware_adapter_rejected; eassumption.
        -- eapply Hall; eassumption.
      * right. exists (S j), d. rewrite Nat.add_succ_r.
        split; [reflexivity|]. split; [exact L|]. split; [exact H|].
        split; [exact Hlt|].
        intros [|k] d' Hk Hd; simpl in Hk.
        -- injection Hk as <-.
           pose proof (hardware_adapter_rejected _ _ E Hd). split; intros; lia.
        -- destruct (Hall k d' Hk Hd) as [A B].
           split; [exact A|]. intros; apply B; lia.
Qed.

(** X17.  Without WARP, the adapter [GetAdapter] returns has more
    dedicated video memory than every acceptable adapter enumerated before
    it and at least as much as every one after it: the largest wins and,
    among equals, the first.  It always has some dedicated memory. *)
Theorem GetAdapter_prefers_most_memory adapters i :
  GetAdapter false adapters = EnumeratedAdapter i ->
  exists desc,
    adapters !! i = Some desc /\ hardware_adapter desc
    /\ 0 < DedicatedVideoMemory desc
    /\ forall k d, adapters !! k = Some d -> hardware_adapter d ->
         DedicatedVideoMemory d <= DedicatedVideoMemory desc
         /\ ((k < i)%nat -> DedicatedVideoMemory d < DedicatedVideoMemory desc).
Proof.
  unfold GetAdapter.
  destruct (GetAdapter_loop_max adapters 0 0 NullAdapter)
    as [[-> _] | (j & d & -> & L & H & Hlt & Hall)].
  - discriminate.
  - intros [= <-]. exists d. auto.
Qed.

Lemma GetAdapter_prefers_most_memory_witness :
  exists desc,
    [mkAdapterDesc 0 512 true; mkAdapterDesc 2 9000 true;
     mkAdapterDesc 0 4096 true; mkAdapterDesc 0 8192 false;
     mkAdapterDesc 0 4096 true] !! 2%nat = Some desc
    /\ hardware_adapter desc
    /\ 0 < DedicatedVideoMemory desc
    /\ forall k d,
         [mkAdapterDesc 0 512 true; mkAdapterDesc 2 9000 true;
          mkAdapterDesc 0 4096 true; mkAdapterDesc 0 8192 false;
          mkAdapterDesc 0 4096 true] !! k = Some d ->
         hardware_adapter d ->
         DedicatedVideoMemory d <= DedicatedVideoMemory desc
         /\ ((k < 2)%nat -> DedicatedVideoMemory d < DedicatedVideoMemory desc).
Proof.
  apply (GetAdapter_prefers_most_memory
           [mkAdapterDesc 0 512 true; mkAdapterDesc 2 9000 true;
            mkAdapterDesc 0 4096 true; mkAdapterDesc 0 8192 false;
            mkAdapterDesc 0 4096 true] 2).
  reflexivity.
Defined.

(** X18.  Without WARP, [GetAdapter] returns a null adapter exactly when
    no acceptable adapter reports dedicated video memory above 0: an
    adapter that shares all its memory with the system is never chosen,
    even when it is the only one. *)
Theorem GetAdapter_null_iff adapters :
  GetAdapter false adapters = NullAdapter
  <-> forall d, In d adapters -> hardware_adapter d ->
                DedicatedVideoMemory d <= 0.
Proof.
  unfold GetAdapter.
  destruct (GetAdapter_loop_max adapters 0 0 NullAdapter)
    as [[-> Hall] | (j & d & -> & L & H & Hlt & Hall)].
  - split; [|reflexivity]. intros _ d Hin Hd.
    apply list_elem_of_In, list_elem_of_lookup in Hin as [k Hk].
    eapply Hall; eassumption.
  - split; [discriminate|]. intros Hz. exfalso.
    assert (DedicatedVideoMemory d <= 0); [|lia].
    apply Hz; [|exact H].
    apply list_elem_of_In, list_elem_of_lookup. eauto.
Qed.

(** ** More on the command line *)

Lemma parse_loop_trailing_flag pre flag fuel :
  no_width_flag pre -> no_height_flag pre ->
  is_width_flag flag || is_height_flag flag = true ->
  forall i g,
    (i <= length pre)%nat -> (length pre < i + fuel)%nat ->
    parse_loop fuel (pre ++ [flag]) i g = ParseUndefined.
Proof.
  intros Hw Hh Hf. induction fuel as [|fuel IH]; intros i g Hi Hfuel; [lia|].
  simpl. rewrite length_app. simpl.
  destruct (Nat.ltb_spec i (length pre + 1)) as [_ | Hge]; [|lia].
  destruct (Nat.eq_dec i (length pre)) as [-> | Hne].
  - unfold parse_body.
    rewrite (list_lookup_middle pre [] flag (length pre) eq_refl). simpl.
    assert (Hnone : (pre ++ [flag]) !! S (length pre) = None).
    { apply lookup_ge_None_2. rewrite length_app. simpl. lia. }
    destruct (is_width_flag flag); simpl.
    + rewrite Hnone. reflexivity.
    + rewrite (list_lookup_middle pre [] flag (length pre) eq_refl). simpl.
      simpl in Hf. rewrite Hf. simpl. rewrite Hnone. reflexivity.
  - assert (Hlt : (i < length pre)%nat) by lia.
    destruct (lookup_lt_is_Some_2 pre i Hlt) as [a Ea].
    assert (Ea' : (pre ++ [flag]) !! i = Some a)
      by (rewrite lookup_app_l by exact Hlt; exact Ea).
    unfold parse_body. rewrite Ea'. simpl.
    rewrite (Forall_lookup_1 _ _ _ _ Hw Ea). simpl. rewrite Ea'. simpl.
    rewrite (Forall_lookup_1 _ _ _ _ Hh Ea). simpl. rewrite Ea'. simpl.
    apply IH; lia.
Qed.

(** X19.  A dimension flag that ends the command line makes the
    program read [argv[argc]]: with no dimension flag before it, the
    parser reaches the flag and its behaviour is undefined. *)
Theorem command_line_trailing_flag_undefined pre flag g :
  no_width_flag pre -> no_height_flag pre ->
  is_width_flag flag || is_height_flag flag = true ->
  ParseCommandLineArguments (pre ++ [flag]) g = ParseUndefined.
Proof.
  intros Hw Hh Hf. unfold ParseCommandLineArguments.
  apply parse_loop_trailing_flag; try assumption; [lia|].
  rewrite length_app. simpl. lia.
Qed.

Lemma command_line_trailing_flag_undefined_witness :
  ParseCommandLineArguments
    (["DX12Renderer.exe"; "--warp"]%string ++ ["-w"]%string) initial_globals
  = ParseUndefined.
Proof.
  apply (command_line_trailing_flag_undefined
           ["DX12Renderer.exe"; "--warp"]%string "-w"%string initial_globals).
  - repeat constructor.
  - repeat constructor.
  - reflexivity.
Defined.

(** What one iteration does for the WARP switch: it never clears it, and a
    WARP flag at any of the indices the iteration passes over sets it. *)
Lemma parse_body_warp argv i g i' g' :
  parse_body argv i g = Some (i', g') ->
  (g_UseWarp g = true -> g_UseWarp g' = true)
  /\ forall j a, (i <= j <= i')%nat -> argv !! j = Some a ->
       is_warp_flag a = true -> g_UseWarp g' = true.
Proof.
  unfold parse_body.
  destruct (argv !! i) as [a0|] eqn:Ea; simpl; [|discriminate].
  destruct (is_width_flag a0) eqn:Fw; simpl.
  - destruct (argv !! S i) as [v|] eqn:Ev; simpl; [|discriminate].
    rewrite Ev. simpl.
    destruct (is_height_flag v) eqn:Fh; simpl.
    + destruct (argv !! S (S i)) as [v2|] eqn:Ev2; simpl; [|discriminate].
      rewrite Ev2. simpl. intros [= <- <-].
      split.
      * intros Hg. destruct (is_warp_flag v2); simpl; auto.
      * intros j a Hj Hl Ha.
        assert (j = i \/ j = S i \/ j = S (S i)) as [-> | [-> | ->]] by lia.
        -- rewrite Ea in Hl. injection Hl as <-.
           rewrite (width_flag_not_warp _ Fw) in Ha. discriminate.
        -- rewrite Ev in Hl. injection Hl as <-.
           rewrite (height_flag_not_warp _ Fh) in Ha. discriminate.
        -- rewrite Ev2 in Hl. injection Hl as <-. rewrite Ha. reflexivity.
    + rewrite Ev. simpl. intros [= <- <-].
      split.
      * intros Hg. destruct (is_warp_flag v); simpl; auto.
      * intros j a Hj Hl Ha.
        assert (j = i \/ j = S i) as [-> | ->] by lia.
        -- rewrite Ea in Hl. injection Hl as <-.
           rewrite (width_flag_not_warp _ Fw) in Ha. discriminate.
        -- rewrite Ev in Hl. injection Hl as <-. rewrite Ha. reflexivity.
  - rewrite Ea. simpl.
    destruct (is_height_flag a0) eqn:Fh; simpl.
    + destruct (argv !! S i) as [v|] eqn:Ev; simpl; [|discriminate].
      rewrite Ev. simpl. intros [= <- <-].
      split.
      * intros Hg. destruct (is_warp_flag v); simpl; auto.
      * intros j a Hj Hl Ha.
        assert (j = i \/ j = S i) as [-> | ->] by lia.
        -- rewrite Ea in Hl. injection Hl as <-.
           rewrite (height_flag_not_warp _ Fh) in Ha. discriminate.
        -- rewrite Ev in Hl. injection Hl as <-. rewrite Ha. reflexivity.
    + rewrite Ea. simpl. intros [= <- <-].
      split.
      * intros Hg. destruct (is_warp_flag a0); simpl; auto.
      * intros j a Hj Hl Ha.
        assert (j = i) as -> by lia.
        rewrite Ea in Hl. injection Hl as <-. rewrite Ha. reflexivity.
Qed.

Lemma parse_loop_warp fuel argv :
  forall i g g',
    parse_loop fuel argv i g = Parsed g' ->
    g_UseWarp g = true
    \/ (exists j a, (i <= j)%nat /\ argv !! j = Some a
                    /\ is_warp_flag a = true) ->
    g_UseWarp g' = true.
Proof.
  induction fuel as [|fuel IH]; intros i g g'; simpl.
  - destruct (Nat.ltb_spec i (length argv)) as [Hlt | Hge]; [discriminate|].
    intros [= <-] [Hg | (j & a & Hj & Hl & _)]; [exact Hg|].
    apply lookup_lt_Some in Hl. lia.
  - destruct (Nat.ltb_spec i (length argv)) as [Hlt | Hge].
    2: { intros [= <-] [Hg | (j & a & Hj & Hl & _)]; [exact Hg|].
         apply lookup_lt_Some in Hl. lia. }
    destruct (parse_body argv i g) as [[i1 g1]|] eqn:Eb; [|discriminate].
    destruct (parse_body_warp _ _ _ _ _ Eb) as [Hkeep Hset].
    intros HP [Hg | (j & a & Hj & Hl & Ha)].
    + apply (IH _ _ _ HP). left. auto.
    + apply (IH _ _ _ HP).
      destruct (Nat.le_gt_cases j i1) as [Hle | Hgt].
      * left. apply (Hset j a); auto.
      * right. exists j, a. split; [lia | auto].
Qed.

(** X20.  The WARP flag is honoured wherever it stands on the command
    line, even in the place of the value of a dimension flag, and nothing
    on the command line switches WARP off again. *)
Theorem command_line_warp_anywhere argv g g' :
  ParseCommandLineArguments argv g = Parsed g' ->
  g_UseWarp g = true \/ Exists (fun a => is_warp_flag a = true) argv ->
  g_UseWarp g' = true.
Proof.
  unfold ParseCommandLineArguments. intros HP H.
  apply (parse_loop_warp _ _ _ _ _ HP).
  destruct H as [H | H]; [left; exact H | right].
  apply Exists_exists in H as (a & Hin & Ha).
  apply list_elem_of_lookup in Hin as [j Hj].
  exists j, a. split; [lia | auto].
Qed.

Lemma command_line_warp_anywhere_witness :
  exists g',
    ParseCommandLineArguments ["DX12Renderer.exe"; "-w"; "--warp"]%string
      initial_globals
    = Parsed g'
    /\ g_UseWarp g' = true /\ g_ClientWidth g' = 0.
Proof.
  eexists. split; [vm_compute; reflexivity|]. split; [|reflexivity].
  apply (command_line_warp_anywhere
           ["DX12Renderer.exe"; "-w"; "--warp"]%string initial_globals).
  - vm_compute. reflexivity.
  - right. apply Exists_cons_tl, Exists_cons_tl, Exists_cons_hd. reflexivity.
Defined.

Lemma wcstol_height_flag flag : is_height_flag flag = true -> wcstol flag = 0.
Proof.
  unfold is_height_flag. intros H.
  apply orb_true_iff in H as [H | H]; apply String.eqb_eq in H; subst;
    reflexivity.
Qed.

(** X21.  A height flag in the place of the width: after [-w] the next
    argument is consumed as the width, which makes the width 0, and is
    then still looked at as a flag, so that it consumes its own value and
    sets the height. *)
Theorem command_line_flag_as_value prog wflag hflag v g :
  is_flag prog = false -> is_width_flag wflag = true ->
  is_height_flag hflag = true -> is_flag v = false ->
  ParseCommandLineArguments [prog; wflag; hflag; v] g
  = Parsed (with_ClientHeight (wrap32 (wcstol v)) (with_ClientWidth 0 g)).
Proof.
  unfold is_flag. intros Hp Hw Hh Hv.
  apply orb_false_elim in Hp as [Hp Hp3]. apply orb_false_elim in Hp as [Hp1 Hp2].
  apply orb_false_elim in Hv as [Hv Hv3]. apply orb_false_elim in Hv as [Hv1 Hv2].
  unfold ParseCommandLineArguments. simpl. unfold parse_body. simpl.
  rewrite Hp1. simpl. rewrite Hp2. simpl. rewrite Hp3. simpl.
  unfold parse_body. simpl.
  rewrite Hw. simpl. rewrite Hh. simpl. rewrite Hv3.
  rewrite (wcstol_height_flag _ Hh). reflexivity.
Qed.

Lemma command_line_flag_as_value_witness :
  ParseCommandLineArguments ["DX12Renderer.exe"; "-w"; "-h"; "600"]%string
    initial_globals
  = Parsed (with_ClientHeight (wrap32 (wcstol "600"))
              (with_ClientWidth 0 initial_globals)).
Proof.
  apply (command_line_flag_as_value "DX12Renderer.exe"%string "-w"%string
           "-h"%string "600"%string initial_globals);
    reflexivity.
Defined.

Lemma to_LONG_wrap32 z : LONG_MIN <= z <= LONG_MAX -> to_LONG (wrap32 z) = z.
Proof.
  unfold to_LONG, wrap32, LONG_MIN, LONG_MAX.
  change (2 ^ 32) with 4294967296. change (2 ^ 31) with 2147483648.
  intros H. Z.to_euclidean_division_equations. lia.
Qed.

Lemma wcstol_range s : LONG_MIN <= wcstol s <= LONG_MAX.
Proof.
  unfold wcstol.
  destruct (match skip_spaces s with
            | String "-"%char r => (true, r)
            | String "+"%char r => (false, r)
            | _ => (false, skip_spaces s)
            end) as [negative s2].
  unfold LONG_MIN, LONG_MAX. lia.
Qed.

(** X22.  From the command line to the window, on any command line on
    which every dimension flag is followed by an argument that is not a
    flag.  The number [wcstol] reads after the last occurrence of a flag,
    negative or not, is stored in an unsigned global, where a negative
    number becomes a large one; [CreateWindow] casts it back.  So the
    client rectangle [CreateWindow] hands to [AdjustWindowRect] has
    exactly the width and the height the command line gives, or 1280 and
    720 where it gives none, and the size and the place of the window are
    those [CreateWindow] computes from what [AdjustWindowRect] makes of
    that rectangle. *)
Theorem command_line_to_window argv s :
  values_follow argv = true ->
  exists g',
    ParseCommandLineArguments argv initial_globals = Parsed g'
    /\ 0 <= g_ClientWidth g' < 2 ^ 32
    /\ 0 <= g_ClientHeight g' < 2 ^ 32
    /\ forall x y cx cy,
         CreateWindow s (g_ClientWidth g') (g_ClientHeight g')
         = Some (x, y, cx, cy) ->
         cx = right
                (AdjustWindowRect s
                   (mkRECT 0 0 (dimension_read is_width_flag argv 1280)
                      (dimension_read is_height_flag argv 720))
                   WS_OVERLAPPEDWINDOW)
              - left
                  (AdjustWindowRect s
                     (mkRECT 0 0 (dimension_read is_width_flag argv 1280)
                        (dimension_read is_height_flag argv 720))
                     WS_OVERLAPPEDWINDOW)
         /\ cy = bottom
                   (AdjustWindowRect s
                      (mkRECT 0 0 (dimension_read is_width_flag argv 1280)
                         (dimension_read is_height_flag argv 720))
                      WS_OVERLAPPEDWINDOW)
                 - top
                     (AdjustWindowRect s
                        (mkRECT 0 0 (dimension_read is_width_flag argv 1280)
                           (dimension_read is_height_flag argv 720))
                        WS_OVERLAPPEDWINDOW)
         /\ x = Z.max 0 ((SM_CXSCREEN s - cx) ÷ 2)
         /\ y = Z.max 0 ((SM_CYSCREEN s - cy) ÷ 2).
Proof.
  intros Hvf. unfold ParseCommandLineArguments.
  destruct (parse_loop_values_follow (length argv) argv 0 initial_globals)
    as (g' & R & W & H & _); [exact Hvf | lia |].
  rewrite drop_0 in W, H. simpl in W, H.
  exists g'. split; [exact R|].
  assert (Hw : 0 <= g_ClientWidth g' < 2 ^ 32
               /\ to_LONG (g_ClientWidth g')
                  = dimension_read is_width_flag argv 1280).
  { rewrite W. unfold dimension_read.
    destruct (last_value is_width_flag argv) as [v|].
    - split; [apply Z.mod_pos_bound; reflexivity|].
      apply to_LONG_wrap32, wcstol_range.
    - split; [lia | reflexivity]. }
  assert (Hh : 0 <= g_ClientHeight g' < 2 ^ 32
               /\ to_LONG (g_ClientHeight g')
                  = dimension_read is_height_flag argv 720).
  { rewrite H. unfold dimension_read.
    destruct (last_value is_height_flag argv) as [v|].
    - split; [apply Z.mod_pos_bound; reflexivity|].
      apply to_LONG_wrap32, wcstol_range.
    - split; [lia | reflexivity]. }
  destruct Hw as [Hw1 Hw2]. destruct Hh as [Hh1 Hh2].
  split; [exact Hw1|]. split; [exact Hh1|].
  intros x y cx cy. unfold CreateWindow, int_sub. rewrite Hw2, Hh2.
  set (r := AdjustWindowRect s _ _).
  destruct (in_int (right r - left r)); simpl; [|discriminate].
  destruct (in_int (bottom r - top r)); simpl; [|discriminate].
  destruct (in_int (SM_CXSCREEN s - (right r - left r))); simpl;
    [|discriminate].
  destruct (in_int (SM_CYSCREEN s - (bottom r - top r))); simpl;
    [|discriminate].
  intros [= <- <- <- <-]. auto.
Qed.

Lemma command_line_to_window_witness :
  values_follow
    ["DX12Renderer.exe"; "-h"; "600"; "-w"; "-5"]%string = true
  /\ exists g',
       ParseCommandLineArguments
         ["DX12Renderer.exe"; "-h"; "600"; "-w"; "-5"]%string initial_globals
       = Parsed g'
       /\ g_ClientWidth g' = 2 ^ 32 - 5
       /\ CreateWindow screen_sample (g_ClientWidth g') (g_ClientHeight g')
          = Some (954, 220, 11, 639).
Proof.
  split; [reflexivity|].
  destruct (command_line_to_window
              ["DX12Renderer.exe"; "-h"; "600"; "-w"; "-5"]%string
              screen_sample eq_refl)
    as (g' & R & _ & _ & Hwin).
  exists g'. split; [exact R|].
  vm_compute in R. injection R as <-.
  split; [reflexivity|]. reflexivity.
Defined.

(** ** More on resizing *)

(** X24.  A request for a size with a zero in it is never the current
    size once the client size is at least 1 by 1, as it is after any
    resize: every such [WM_SIZE], also a repeated one for a window that
    stays minimised, flushes the queue, signals the fence and resizes the
    swap chain again, to the clamped size. *)
Theorem Resize_zero_never_noop e width height w :
  env_ok e -> world_ok w ->
  1 <= g_ClientWidth (glob w) -> 1 <= g_ClientHeight (glob w) ->
  width = 0 \/ height = 0 ->
  exists w',
    Resize e width height w = Ok tt w'
    /\ g_FenceValue (glob w') = g_FenceValue (glob w) + 1
    /\ In (EvQueueSignal (g_FenceValue (glob w) + 1)) (log w')
    /\ In (EvResizeBuffers g_NumFrames (Z.max 1 width) (Z.max 1 height))
         (log w')
    /\ swap w' = mkSwapChain (Z.max 1 width) (Z.max 1 height).
Proof.
  intros [Hc He] Hw Hcw Hch Hz.
  destruct (Resize_cases e width height w He Hw)
    as [(g & c & wm & R & _) | (Hn & _)]; [lia | | contradiction].
  eexists. split; [exact R|]. cbn [glob log swap]. cbn_world.
  split; [reflexivity|]. split; [|split; [|reflexivity]].
  - apply in_or_app. right. left. reflexivity.
  - apply in_or_app. right. unfold resize_events. right.
    apply in_or_app. right. simpl. auto.
Qed.

Lemma Resize_zero_never_noop_witness :
  exists w',
    Resize (env_good 0 0) 0 0
      (startup 1 1 false false (mkRECT 0 0 1 1) 0)
    = Ok tt w'
    /\ g_FenceValue (glob w') = 1
    /\ In (EvQueueSignal 1) (log w')
    /\ In (EvResizeBuffers g_NumFrames 1 1) (log w')
    /\ swap w' = mkSwapChain 1 1.
Proof.
  apply (Resize_zero_never_noop (env_good 0 0) 0 0
           (startup 1 1 false false (mkRECT 0 0 1 1) 0)).
  - split; [constructor; simpl; intros; lia|].
    unfold index_ok, g_NumFrames. simpl. lia.
  - apply startup_ok. unfold g_NumFrames. lia.
  - simpl. lia.
  - simpl. lia.
  - left. reflexivity.
Defined.

(** X25.  A resize the swap chain refuses.  When [ResizeBuffers] fails,
    [Resize] throws with the queue flushed, both back buffers released and
    not fetched again, the client size already changed and the swap chain
    still at its old size. *)
Theorem Resize_failure e width height w :
  index_ok e -> world_ok w ->
  g_ClientWidth (glob w) <> width \/ g_ClientHeight (glob w) <> height ->
  0 <= hr_Signal e -> 0 <= hr_SetEventOnCompletion e -> 0 <= hr_GetDesc e ->
  hr_ResizeBuffers e < 0 ->
  exists w',
    Resize e width height w = Thrown w'
    /\ g_BackBuffers (glob w') = [None; None]
    /\ g_ClientWidth (glob w') = Z.max 1 width
    /\ g_ClientHeight (glob w') = Z.max 1 height
    /\ swap w' = swap w
    /\ fence_completed (gpu w') = g_FenceValue (glob w')
    /\ fence_pending (gpu w') = []
    /\ forall i, ~ In (EvGetBuffer i) (skipn (length (log w)) (log w')).
Proof.
  intros He Hw Hne Hs Hse Hd Hr. pose proof Hw as Hw0. destruct Hw.
  destruct w as [gl gp sw wi lg]. simpl in *.
  destruct gl as [warp cw ch ini wr bbs idx fv ffv vs ts fs]. simpl in *.
  destruct (length_two _ ok_length0) as (a & b & ->). subst bbs.
  assert (Hc : negb (cw =? width) || negb (ch =? height) = true).
  { destruct (Z.eqb_spec cw width), (Z.eqb_spec ch height); simpl; auto.
    destruct Hne; contradiction. }
  unfold Resize, UpdateRenderTargetViews.
  rewrite !indices_NumFrames. cbn [for_each].
  do 2 eq_step. rewrite Hc. do 2 eq_step.
  match goal with
  | |- context [bind (Flush e) _ ?w1] =>
      destruct (Flush_cases e w1) as [(g & c & R & G & V & L) | (Hf & w' & R)];
        [simpl; auto .. | |]
  end.
  2: { exfalso. unfold Flush, bind in R.
       rewrite (Signal_ok _ _ Hs) in R.
       match type of R with
       | WaitForFenceValue e ?v _ ?w1 = _ =>
           destruct (WaitForFenceValue_cases e v w1 v)
             as [(g & c & R' & _) | (Hhr & _)]; [| | congruence | lia]
       end.
       - simpl. rewrite (wrap64_small _ ok_counter0).
         apply gpu_ok_signal with (top := fv); [assumption | lia].
       - lia. }
  rewrite ?bind_assoc_eq. erewrite bind_eq_Ok by exact R. cbn_world.
  destruct (index_cases _ ok_index0) as [-> | ->].
  all: repeat eq_step.
  all: eq_hr_ok Hd; repeat eq_step.
  all: rewrite ?bind_assoc_eq;
       erewrite bind_eq_Ok by (apply swapChain_ResizeBuffers_failed; exact Hr);
       cbn_world.
  all: eq_hr_thrown Hr.
  all: eexists; split; [reflexivity|]; cbn [glob gpu swap log]; cbn_world.
  all: repeat (split; [first [reflexivity | assumption]|]).
  all: rewrite <- !app_assoc, drop_app_length.
  all: unfold wait_events; destruct (c <? fv + 1); simpl;
       intros i; intuition discriminate.
Qed.

Lemma Resize_failure_witness :
  exists w',
    Resize
      (mkEnv 0 0 0 0 0 (-1) (fun _ => 0) 0%nat 0%nat 0 (mkRECT 0 0 0 0))
      800 600 world_after_first_frame
    = Thrown w'
    /\ g_BackBuffers (glob w') = [None; None]
    /\ g_ClientWidth (glob w') = 800
    /\ g_ClientHeight (glob w') = 600
    /\ swap w' = mkSwapChain 1280 720.
Proof.
  destruct (Resize_failure
              (mkEnv 0 0 0 0 0 (-1) (fun _ => 0) 0%nat 0%nat 0 (mkRECT 0 0 0 0))
              800 600 world_after_first_frame)
    as (w' & R & A & B & C & D & _).
  - unfold index_ok, g_NumFrames. simpl. lia.
  - constructor; simpl; unfold g_NumFrames, UINT64_MAX; try lia;
      try reflexivity.
    + repeat constructor; lia.
    + unfold gpu_ok. simpl. lia.
  - left. simpl. lia.
  - simpl. lia.
  - simpl. lia.
  - simpl. lia.
  - simpl. lia.
  - exists w'. auto.
Defined.
